(** * rpn-lang: the RPN controller interpreter (rpn-controller.cpp)

    A shallow embedding of the tokenizer, the value stack, the parameter
    validator, the two dictionaries and the runtime / compile-time
    evaluators of [RpnCncController], followed by the properties of the
    interpreter that the specification states about them. *)

From Stdlib Require Import ZArith Ascii String List Lia Bool.
From Stdlib Require Import Floats.SpecFloat.
From stdpp Require Import base option gmap strings list fin_maps pretty.

Import ListNotations.
Local Open Scope string_scope.
Local Open Scope Z_scope.

(** ** std::string and size_type *)

(** [std::string::size_type] is an unsigned 64-bit integer; positions are
    carried as [Z] and [npos] is its largest value. *)
Definition size_type := Z.
Definition npos : size_type := 18446744073709551615.

Definition size (s : string) : size_type := Z.of_nat (String.length s).

(** [s.find(c, 0)] scanning from index [i]: the index of the first
    occurrence of [c], or [npos]. *)
Fixpoint find_from (s : string) (c : ascii) (i : size_type) : size_type :=
  match s with
  | EmptyString => npos
  | String a s' => if Ascii.eqb a c then i else find_from s' c (i + 1)
  end.

Definition find (s : string) (c : ascii) : size_type := find_from s c 0.

(** [s.substr(pos, n)] for [pos <= s.size()]: at most [n] characters from
    [pos] on, [n = npos] taking everything up to the end. *)
Definition substr (s : string) (pos n : size_type) : string :=
  String.substring (Z.to_nat pos) (Z.to_nat (Z.min n (size s - pos))) s.

(** ** Tokenizer *)

(** [nextWord(word, buffer, delim)] returns the found position together
    with the new contents of the two by-reference arguments [word] and
    [buffer]. *)
Definition nextWord (buffer : string) (delim : ascii)
  : size_type * string * string :=
  let p1 := find buffer delim in
  if p1 =? npos then (p1, buffer, "")
  else (p1, substr buffer 0 p1, substr buffer (p1 + 1) npos).

Definition space : ascii := " "%char.

Definition quote : ascii := Ascii.ascii_of_nat 34.
Definition rparen : ascii := ")"%char.
Definition dot : ascii := "."%char.
Definition newline : string := String (Ascii.ascii_of_nat 10) "".

(** [s.c_str()] as read by the C library: the bytes before the first NUL. *)
Fixpoint c_str (s : string) : string :=
  match s with
  | EmptyString => ""
  | String a s' => if Ascii.eqb a Ascii.zero then "" else String a (c_str s')
  end.

(** ** C library: character classes and strtol *)

Definition isdigit (c : ascii) : bool :=
  let n := Z.of_nat (nat_of_ascii c) in (48 <=? n) && (n <=? 57).

Definition isspace (c : ascii) : bool :=
  let n := Z.of_nat (nat_of_ascii c) in (n =? 32) || ((9 <=? n) && (n <=? 13)).

(** [word[0]]: the first byte, NUL for the empty string. *)
Definition first_byte (word : string) : ascii :=
  match word with
  | EmptyString => Ascii.zero
  | String a _ => a
  end.

Definition LONG_MAX : Z := 9223372036854775807.
Definition LONG_MIN : Z := -9223372036854775808.

(** The value of a character as a digit in bases up to 36. *)
Definition digit_value (c : ascii) : option Z :=
  let n := Z.of_nat (nat_of_ascii c) in
  if (48 <=? n) && (n <=? 57) then Some (n - 48)
  else if (97 <=? n) && (n <=? 122) then Some (n - 97 + 10)
  else if (65 <=? n) && (n <=? 90) then Some (n - 65 + 10)
  else None.

Definition is_digit_of (base : Z) (c : ascii) : bool :=
  match digit_value c with
  | Some d => d <? base
  | None => false
  end.

(** Accumulates the longest prefix of [s] made of digits of [base]. *)
Fixpoint strtol_digits (base : Z) (s : string) (acc : Z) : Z :=
  match s with
  | EmptyString => acc
  | String c s' =>
      match digit_value c with
      | Some d => if d <? base then strtol_digits base s' (acc * base + d) else acc
      | None => acc
      end
  end.

Fixpoint skip_space (s : string) : string :=
  match s with
  | String c s' => if isspace c then skip_space s' else s
  | EmptyString => s
  end.

Definition is_x (c : ascii) : bool :=
  Ascii.eqb c "x"%char || Ascii.eqb c "X"%char.

(** Base detection of [strtol(..., 0)]: a [0x] / [0X] prefix followed by a
    hexadecimal digit selects base 16 and is skipped, a leading [0]
    selects base 8, anything else base 10. *)
Definition detect_base (s : string) : Z * string :=
  match s with
  | String c0 (String c1 s') =>
      if Ascii.eqb c0 "0"%char then
        if is_x c1 && is_digit_of 16 (first_byte s') then (16, s') else (8, s)
      else (10, s)
  | String c0 EmptyString => if Ascii.eqb c0 "0"%char then (8, s) else (10, s)
  | EmptyString => (10, s)
  end.

(** [strtol(nptr, nullptr, 0)] for a 64-bit [long]: white space and a sign
    are skipped, the base is detected, and a value out of range is
    clamped to [LONG_MAX] or [LONG_MIN]. *)
Definition strtol (nptr : string) : Z :=
  let s := skip_space nptr in
  let '(neg, s) :=
    match s with
    | String c s' =>
        if Ascii.eqb c "-"%char then (true, s')
        else if Ascii.eqb c "+"%char then (false, s') else (false, s)
    | EmptyString => (false, s)
    end in
  let '(base, digits) := detect_base s in
  let v := strtol_digits base digits 0 in
  if neg : bool then Z.max (- v) LONG_MIN else Z.min v LONG_MAX.

(** ** Datatypes on the stack *)

(** IEEE 754 binary64 values, in their specification form. *)
Definition double := spec_float.
Definition nan : double := S754_nan.

(** Conversion of a [long] to [double]: round to nearest, ties to even. *)
Definition double_of_long (v : Z) : double := binary_normalize 53 1024 v 0 false.

Record Vec3 := mkVec3 { vec_x : double; vec_y : double; vec_z : double }.

Inductive datatype_t :=
| st_double
| st_integer
| st_string
| st_vec3
| st_number   (* either double or integer *)
| st_any.     (* wildcard *)

(** The enumerator values of [datatype_t]. *)
Definition enum_value (dt : datatype_t) : Z :=
  match dt with
  | st_double => 0
  | st_integer => 1
  | st_string => 2
  | st_vec3 => 3
  | st_number => 4
  | st_any => 5
  end.

Definition to_string_datatype (dt : datatype_t) : string :=
  match dt with
  | st_double => "double"
  | st_integer => "integer"
  | st_string => "string"
  | st_vec3 => "vec3"
  | st_number => "number"
  | st_any => "any"
  end.

(** [std::variant<double, long, std::string, Vec3>]; the order matches
    the enumeration. *)
Inductive stacktype_t :=
| v_double (d : double)
| v_integer (v : Z)
| v_string (s : string)
| v_vec3 (v : Vec3).

(** [e.index()] *)
Definition index (e : stacktype_t) : Z :=
  match e with
  | v_double _ => 0
  | v_integer _ => 1
  | v_string _ => 2
  | v_vec3 _ => 3
  end.

Record param_t := mkParam { p_name : string; p_type : datatype_t }.

(** The bodies stored in [word_t::eval].  The lambdas of the source
    capture [this] and run against the interpreter they live in, so each
    of them is named here and interpreted by [call] below. *)
Inductive body_t :=
| b_nop                            (* rv = 0; return rv; *)
| b_print_stack                    (* .S *)
| b_string_literal
| b_comment
| b_colon
| b_dup
| b_drop
| b_vec3_x
| b_vec3_y
| b_vec3_z
| b_semicolon
| b_user (wl : list string).       (* [this,wl]: user_eval(word_, rest_, wl) *)

Record word_t := mkWord {
  w_description : string;
  w_params : list (list param_t);
  w_eval : body_t
}.

(** [to_string(const std::pair<std::string,word_t> &)] *)
Definition to_string_params (pp : list param_t) : string :=
  "  " +:+ pretty (Z.of_nat (length pp)) +:+ "(" +:+
  foldl (fun acc p =>
           acc +:+ "{ " +:+ p_name p +:+ " " +:+ to_string_datatype (p_type p) +:+ "} ")
        "" pp +:+
  ")" +:+ newline.

Definition to_string_word (name : string) (w : word_t) : string :=
  "((word " +:+ name +:+ ") " +:+ w_description w +:+ " " +:+
  pretty (Z.of_nat (length (w_params w))) +:+ newline +:+
  foldl (fun acc pp => acc +:+ to_string_params pp) "" (w_params w) +:+
  ")" +:+ newline.

(** ** Interpreter state *)

(** What the interpreter writes with [printf].  Text is kept as the bytes
    written; the dump of [print_stack], whose rendering of doubles is left
    to the platform's [%f], is kept as the stack it was given. *)
Inductive output :=
| out_text (s : string)
| out_stack (stk : list stacktype_t).

(** [RpnCncController::Privates], with the console it prints to.  The
    deque [_stack] is kept front first: its back, the last element, is
    the top of the stack. *)
Record State := mkState {
  _runtimeDictionary : gmap string word_t;
  _compiletimeDictionary : gmap string word_t;
  _isCompiling : bool;
  _newWord : string;
  _newDefinition : list string;
  _stack : list stacktype_t;
  console : list output
}.

Definition set_runtimeDictionary (d : gmap string word_t) (st : State) : State :=
  mkState d (_compiletimeDictionary st) (_isCompiling st) (_newWord st)
          (_newDefinition st) (_stack st) (console st).
Definition set_isCompiling (b : bool) (st : State) : State :=
  mkState (_runtimeDictionary st) (_compiletimeDictionary st) b (_newWord st)
          (_newDefinition st) (_stack st) (console st).
Definition set_newWord (w : string) (st : State) : State :=
  mkState (_runtimeDictionary st) (_compiletimeDictionary st) (_isCompiling st) w
          (_newDefinition st) (_stack st) (console st).
Definition set_newDefinition (d : list string) (st : State) : State :=
  mkState (_runtimeDictionary st) (_compiletimeDictionary st) (_isCompiling st)
          (_newWord st) d (_stack st) (console st).
Definition set_stack (s : list stacktype_t) (st : State) : State :=
  mkState (_runtimeDictionary st) (_compiletimeDictionary st) (_isCompiling st)
          (_newWord st) (_newDefinition st) s (console st).
Definition set_console (c : list output) (st : State) : State :=
  mkState (_runtimeDictionary st) (_compiletimeDictionary st) (_isCompiling st)
          (_newWord st) (_newDefinition st) (_stack st) c.

Definition printf (s : string) (st : State) : State :=
  set_console (console st ++ [out_text s]) st.

Definition print_stack (st : State) : State :=
  set_console (console st ++ [out_stack (_stack st)]) st.

(** ** Stack *)

Definition stack_push (val : stacktype_t) (st : State) : State :=
  set_stack (_stack st ++ [val]) st.

(** Reading or removing the back of an empty deque has no defined
    behaviour; such calls yield [None]. *)
Definition back (stk : list stacktype_t) : option stacktype_t := last stk.

Definition pop_back (stk : list stacktype_t) : list stacktype_t := removelast stk.

Definition stack_pop (st : State) : option (stacktype_t * State) :=
  match back (_stack st) with
  | Some rv => Some (rv, set_stack (pop_back (_stack st)) st)
  | None => None
  end.

Definition stack_pop_as_double (st : State) : option (double * State) :=
  match stack_pop st with
  | Some (s0, st') =>
      Some (match s0 with
            | v_double d => d
            | v_integer v => double_of_long v
            | v_string _ | v_vec3 _ => nan
            end, st')
  | None => None
  end.

(** ** Validator *)

(** [operator==(const datatype_t &, const size_t &)]: a parameter type
    against the variant index of a stack value. *)
Definition datatype_eq (dt : datatype_t) (idx : Z) : bool :=
  match dt with
  | st_double | st_integer | st_string | st_vec3 => enum_value dt =? idx
  | st_number => (enum_value st_double =? idx) || (enum_value st_integer =? idx)
  | st_any => true
  end.

(** The loop of [top_of_stack_types]: [ri] is the offset from [rbegin()]
    of the reverse iterator, which moves towards the top at each step. *)
Fixpoint top_types_loop (stk : list stacktype_t) (count ri : nat) : list Z :=
  match count with
  | O => []
  | S count' =>
      match rev stk !! ri with
      | Some e => index e :: top_types_loop stk count' (ri - 1)
      | None => []
      end
  end.

(** The tags of the top [n] values, deepest first, or nothing (and a
    message) when the stack holds fewer than [n] values. *)
Definition top_of_stack_types (n : nat) (st : State) : list Z * State :=
  if (length (_stack st) <? n)%nat
  then ([], printf ("size too small to validate (" +:+ pretty (Z.of_nat (length (_stack st)))
                    +:+ " < " +:+ pretty (Z.of_nat n) +:+ ")" +:+ newline) st)
  else (top_types_loop (_stack st) n (n - 1), st).

(** The inner loop of the validator: parameter [i] against tag [i],
    stopping at the first mismatch. *)
Fixpoint pred_loop (p : list param_t) (tv : list Z) : bool :=
  match p, tv with
  | pi :: p', ti :: tv' => if datatype_eq (p_type pi) ti then pred_loop p' tv' else false
  | _, _ => true
  end.

(** The outer loop: the alternatives are tried in order until one
    matches. *)
Fixpoint validate_loop (ps : list (list param_t)) (rv : bool) (st : State)
  : bool * State :=
  match ps with
  | [] => (rv, st)
  | p :: ps' =>
      if rv then (rv, st)
      else
        let n := length p in
        let '(tv, st1) := top_of_stack_types n st in
        let rv' := if (length tv =? 0)%nat then rv else pred_loop p tv in
        validate_loop ps' rv' st1
  end.

Definition validate_stack_for_word (de : string * word_t) (st : State)
  : bool * State :=
  let params := w_params (snd de) in
  let rv := (length params =? 0)%nat
            || ((length params =? 1)%nat && (length (nth 0 params []) =? 0)%nat) in
  validate_loop params rv st.

(** ** Evaluators *)

(** What a call produces: a value, no defined behaviour (see [stack_pop]),
    or nothing within the given recursion budget. *)
Inductive result (A : Type) : Type :=
| Ret (a : A)
| Undefined
| OutOfFuel.
Arguments Ret {A} a.
Arguments Undefined {A}.
Arguments OutOfFuel {A}.

#[global] Instance result_ret : MRet result := fun A a => Ret a.
#[global] Instance result_bind : MBind result := fun A B f m =>
  match m with
  | Ret a => f a
  | Undefined => Undefined
  | OutOfFuel => OutOfFuel
  end.

(** An evaluator returns its [size_type] result with the interpreter state
    and the by-reference argument [rest] as it leaves them. *)
Definition eval_t : Type := string -> string -> State -> result (size_type * State * string).

Definition defined {A} (o : option A) : result A :=
  match o with
  | Some a => Ret a
  | None => Undefined
  end.

Section Evaluator.

(** The conversion of the C library is taken as given. *)
Variable strtod : string -> double.

(** The recursive call to [eval]. *)
Variable eval_rec : eval_t.

Fixpoint user_eval_loop (wordlist : list string) (st : State) : result State :=
  match wordlist with
  | [] => Ret st
  | w :: ws =>
      '(_, st', _) ← eval_rec w "" st;
      user_eval_loop ws st'
  end.

Definition user_eval (word rest : string) (wordlist : list string) (st : State)
  : result (size_type * State * string) :=
  st' ← user_eval_loop wordlist st;
  Ret (0, st', rest).

Definition parse_comment (word rest : string) (st : State)
  : result (size_type * State * string) :=
  let '(rv, comment, rest') := nextWord rest rparen in
  if negb (rv =? npos) then Ret (rv, st, rest')
  else Ret (rv,
            printf ("parse error in comment: terminating ')' not found ["
                    +:+ c_str rest' +:+ "]" +:+ newline) st,
            rest').

(** [w.eval(word, rest)] *)
Definition call (b : body_t) : eval_t := fun word rest st =>
  match b with
  | b_nop => Ret (0, st, rest)
  | b_print_stack => Ret (0, print_stack st, rest)
  | b_string_literal =>
      let '(p, literal, rest') := nextWord rest quote in
      if negb (p =? npos) then Ret (p, stack_push (v_string literal) st, rest')
      else Ret (0,
                printf ("parse error in string literal: terminating '"
                        +:+ String quote "" +:+ "' not found ["
                        +:+ c_str rest' +:+ "]" +:+ newline) st,
                rest')
  | b_comment => parse_comment word rest st
  | b_colon => Ret (0, set_isCompiling true st, rest)
  | b_dup =>
      top ← defined (back (_stack st));
      Ret (0, stack_push top st, rest)
  | b_drop =>
      '(_, st') ← defined (stack_pop st);
      Ret (0, st', rest)
  | b_vec3_x =>
      '(x, st') ← defined (stack_pop_as_double st);
      Ret (0, stack_push (v_vec3 (mkVec3 x nan nan)) st', rest)
  | b_vec3_y =>
      '(y, st') ← defined (stack_pop_as_double st);
      Ret (0, stack_push (v_vec3 (mkVec3 nan y nan)) st', rest)
  | b_vec3_z =>
      '(z, st') ← defined (stack_pop_as_double st);
      Ret (0, stack_push (v_vec3 (mkVec3 nan nan z)) st', rest)
  | b_semicolon =>
      let wl := _newDefinition st in
      let st1 :=
        set_runtimeDictionary
          (<[_newWord st := mkWord ("user " +:+ _newWord st) [] (b_user wl)]>
             (_runtimeDictionary st)) st in
      let st2 := set_isCompiling false st1 in
      let st3 := set_newWord "" st2 in
      let st4 := set_newDefinition [] st3 in
      Ret (0, st4, rest)
  | b_user wl =>
      '(_, st', rest') ← user_eval word rest wl st;
      Ret (0, st', rest')
  end.

Definition compiletime_eval : eval_t := fun word rest st =>
  if String.eqb (_newWord st) "" then Ret (0, set_newWord word st, rest)
  else
    match _compiletimeDictionary st !! word with
    | Some cw => call (w_eval cw) word rest st
    | None =>
        if isdigit (first_byte word) then
          Ret (0, set_newDefinition (_newDefinition st ++ [word]) st, rest)
        else
          match _runtimeDictionary st !! word with
          | Some rw => Ret (0, set_newDefinition (_newDefinition st ++ [word]) st, rest)
          | None =>
              Ret (npos,
                   printf ("unrecognized word at compile time: '" +:+ c_str word
                           +:+ "'" +:+ newline) st,
                   rest)
          end
    end.

Definition runtime_eval : eval_t := fun word rest st =>
  if isdigit (first_byte word) then
    if negb (find word dot =? npos) then
      Ret (0, stack_push (v_double (strtod (c_str word))) st, rest)
    else
      Ret (0, stack_push (v_integer (strtol (c_str word))) st, rest)
  else
    match _runtimeDictionary st !! word with
    | Some we =>
        let '(ok, st1) := validate_stack_for_word (word, we) st in
        if ok then call (w_eval we) word rest st1
        else
          let st2 := printf ("parameters not right for '" +:+ c_str word
                             +:+ "'" +:+ newline) st1 in
          let st3 := print_stack st2 in
          let st4 := printf (c_str (to_string_word word we)) st3 in
          Ret (0, st4, rest)
    | None =>
        Ret (0, printf ("not found '" +:+ c_str word +:+ "' in dict" +:+ newline) st, rest)
    end.

Definition eval_body : eval_t := fun word rest st =>
  if 0 <? size word then
    if _isCompiling st then compiletime_eval word rest st
    else runtime_eval word rest st
  else Ret (0, st, rest).

End Evaluator.

(** [RpnCncController::Privates::eval]; each nested call to [eval] takes
    one unit of [fuel]. *)
Fixpoint eval (strtod : string -> double) (fuel : nat) : eval_t :=
  match fuel with
  | O => fun _ _ _ => OutOfFuel
  | S fuel' => eval_body strtod (eval strtod fuel')
  end.

(** [RpnCncController::parse]: the line is consumed word by word; the
    value [s] returned by [eval] is not looked at. *)
Fixpoint parse (strtod : string -> double) (fuel : nat) (line : string) (st : State)
  : result (bool * State * string) :=
  match fuel with
  | O => OutOfFuel
  | S fuel' =>
      if 0 <? size line then
        let '(p1, word, line1) := nextWord line space in
        '(s, st', line2) ← eval strtod fuel' word line1 st;
        parse strtod fuel' line2 st'
      else Ret (true, st, line)
  end.

(** [RpnCncController::loadFile], given the lines read from the file:
    the lines are parsed in order for as long as [parse] returns [true]. *)
Fixpoint loadFile_loop (strtod : string -> double) (fuel : nat) (path : string)
    (lines : list string) (lineNo : Z) (rv : bool) (st : State)
  : result (bool * State) :=
  match lines with
  | [] => Ret (rv, st)
  | line :: lines' =>
      if rv then
        '(rv', st', _) ← parse strtod fuel line st;
        let st'' :=
          if rv' : bool then st'
          else printf ("parse error at " +:+ c_str path +:+ ":" +:+ pretty lineNo
                       +:+ newline) st' in
        loadFile_loop strtod fuel path lines' (lineNo + 1) rv' st''
      else Ret (rv, st)
  end.

Definition loadFile (strtod : string -> double) (fuel : nat) (path : string)
    (lines : list string) (st : State) : result (bool * State) :=
  loadFile_loop strtod fuel path lines 0 (0 <? length lines)%nat st.

(** ** The dictionaries built by the constructor *)

Definition P (n : string) (t : datatype_t) : param_t := mkParam n t.

(** A [std::map] built from an initializer list keeps, for a key listed
    more than once, the entry listed first. *)
Definition map_of_initializer_list (l : list (string * word_t)) : gmap string word_t :=
  foldl (fun m kv =>
           match m !! kv.1 with
           | Some _ => m
           | None => <[kv.1 := kv.2]> m
           end) ∅ l.

Definition runtime_words : list (string * word_t) := [
  ("ABS", mkWord "Absolute Value (x -- |x|)"
            [[P "x" st_number]; [P "v" st_vec3]] b_nop);
  ("COS", mkWord "Cosine (angle -- cos(angle))" [[P "angle" st_number]] b_nop);
  ("ACOS", mkWord "Arc-Cosine (x -- acos(x))" [[P "x" st_number]] b_nop);
  ("SIN", mkWord "Sine (angle -- sin(angle))" [[P "angle" st_number]] b_nop);
  ("ASIN", mkWord "Arc Sine (x -- asin(x))" [[P "x" st_number]] b_nop);
  ("TAN", mkWord "Tangent (angle -- tan(angle))" [[P "angle" st_number]] b_nop);
  ("ATAN", mkWord "Arc-Tangent (x -- atan(x))" [[P "x" st_number]] b_nop);
  ("ATAN2", mkWord "Arc-Tangent of two variables (y x -- atan2(y,x))"
              [[P "y" st_number; P "x" st_number]] b_nop);
  ("NEG", mkWord "Negate (x -- -x)" [[P "x" st_number]] b_nop);
  ("SQRT", mkWord "Square Root (x -- sqrt(x) )" [[P "x" st_number]] b_nop);
  ("SQ", mkWord "Square (x -- x^2)" [[P "x" st_number]] b_nop);
  ("POW", mkWord "Exponentation (x y -- x^y)"
            [[P "x" st_number; P "y" st_number]] b_nop);
  ("INV", mkWord "Invert (x -- 1/x))" [[P "x" st_number]] b_nop);
  ("PI", mkWord "The constant PI" [[]] b_nop);
  ("+", mkWord "Addition (x y -- x+y)"
          [[P "x" st_number; P "y" st_number]; [P "vx" st_vec3; P "vx" st_vec3]] b_nop);
  ("-", mkWord "Subtract (x y -- y-x)"
          [[P "x" st_number; P "y" st_number]; [P "vx" st_vec3; P "vy" st_vec3]] b_nop);
  ("*", mkWord "Multiply (x y -- x*y)" [[P "x" st_number; P "y" st_number]] b_nop);
  ("*", mkWord "Divide (x y -- y/x)" [[P "x" st_number; P "y" st_number]] b_nop);
  ("EVAL", mkWord "Evaluate string as an algebraic expression"
             [[P "expr" st_string]] b_nop);
  (".S", mkWord "print stack" [[]] b_print_stack);
  ("." +:+ String quote "", mkWord "String literal" [[]] b_string_literal);
  ("(", mkWord "Commment" [[]] b_comment);
  (":", mkWord "Define new word" [[]] b_colon);
  ("STO", mkWord "store variable" [[P "val" st_number; P "var" st_string]] b_nop);
  ("CONCAT", mkWord "String concatenation"
               [[P "s1" st_string; P "a2" st_any]; [P "a1" st_any; P "s2" st_string]] b_nop);
  ("DUP", mkWord "Duplicate top of stack" [[P "s1" st_any]] b_dup);
  ("DROP", mkWord "Drop top of stack" [[P "s1" st_any]] b_drop);
  ("OVER", mkWord "Copy second stack item to top"
             [[P "s1" st_any; P "s2" st_any]] b_nop);
  ("ROLL+", mkWord "Roll stack so that top goes to the bottom ( t1 t2 ... b -- t2 ... b t1 )"
              [[]] b_nop);
  ("ROLL-", mkWord "Roll stack so that bottom goes to the top ( t ... b2 b1 -- b1 t ... b2 )"
              [[]] b_nop);
  ("->STR", mkWord "Convert top of stack to a string ( val -- str )"
              [[P "v1" st_any]] b_nop);
  ("STR->", mkWord "Parse string at top of stack to another type ( str -- val )"
              [[P "v1" st_string]] b_nop);
  ("->{X}", mkWord "Convert value on top of stack to X component of vec3 ( x -- {x,,} )"
              [[P "X" st_number]] b_vec3_x);
  ("->{Y}", mkWord "Convert value on top of stack to Y component of vec3 ( y -- {,y,} )"
              [[P "Y" st_number]] b_vec3_y);
  ("->{Z}", mkWord "Convert value on top of stack to Z component of vec3 ( z -- {,,z} )"
              [[P "Z" st_number]] b_vec3_z);
  ("{}->", mkWord "Convert vector to components on stack ( v -- x y z )"
             [[P "v1" st_vec3]] b_nop);
  ("MPOS->", mkWord "Push Machine Position to the stack. ( -- mpos )" [[]] b_nop);
  ("WPOS->", mkWord "Push Work Position to the stack. ( -- wpos )" [[]] b_nop);
  ("->WPOS", mkWord "Set Work Position ( wpos -- )" [[P "newpos" st_vec3]] b_nop);
  ("SPEED->", mkWord "Push Spindle Speed to the stack. ( -- speed )" [[]] b_nop);
  ("->SPEED", mkWord "Set Spindle Speed ( speed -- )" [[P "speed" st_number]] b_nop);
  ("FEED->", mkWord "Push jog feed rate to the stack. ( -- feed )" [[]] b_nop);
  ("->FEED", mkWord "Set jog feed rate ( feed -- )" [[P "feed" st_number]] b_nop);
  ("JOG-R", mkWord "Jog to relative position ( pos -- )" [[P "offset" st_vec3]] b_nop);
  ("JOG-WA", mkWord "Jog to absolute work position ( wpos -- )" [[P "wpos" st_vec3]] b_nop);
  ("JOG-MA", mkWord "Jog to absolute machine position ( mpos -- )"
               [[P "mpos" st_vec3]] b_nop);
  ("PROBE", mkWord "Probe machine (target feed -- )"
              [[P "target" st_vec3; P "feed" st_number]] b_nop);
  ("MODAL-STATE->", mkWord "Push machine's modal state on the stack ( -- state )"
                      [[]] b_nop);
  ("->MODAL-STATE", mkWord "Send modal state to the machine ( state -- )"
                      [[P "state" st_string]] b_nop);
  ("SEND", mkWord "Send command" [[P "g-code" st_string]] b_nop)
].

Definition compiletime_words : list (string * word_t) := [
  (";", mkWord "End Definition" [[]] b_semicolon);
  ("(", mkWord "Commment" [[]] b_comment)
].

(** [Privates::Privates()] *)
Definition Privates : State := {|
  _runtimeDictionary := map_of_initializer_list runtime_words;
  _compiletimeDictionary := map_of_initializer_list compiletime_words;
  _isCompiling := false;
  _newWord := "";
  _newDefinition := [];
  _stack := [];
  console := []
|}.

(** ** A decimal conversion

    The evaluators are stated for any [strtod].  For closed examples this
    conversion of unsigned literals [digits.digits] is used: the decimal
    value rounded to the nearest binary64, ties to even. *)
Fixpoint scan_decimal (s : string) (acc count : Z) : Z * Z * string :=
  match s with
  | String c s' =>
      if isdigit c
      then scan_decimal s' (acc * 10 + (Z.of_nat (nat_of_ascii c) - 48)) (count + 1)
      else (acc, count, s)
  | EmptyString => (acc, count, s)
  end.

Definition round_ratio (num den : Z) : double :=
  if num =? 0 then S754_zero false
  else
    let s := Z.max 0 (66 + Z.log2 den - Z.log2 num) in
    let q := (num * 2 ^ s) / den in
    let sticky := if (num * 2 ^ s) mod den =? 0 then 0 else 1 in
    binary_normalize 53 1024 (2 * q + sticky) (- (s + 1)) false.

Definition strtod_decimal (nptr : string) : double :=
  let '(ip, _, r) := scan_decimal nptr 0 0 in
  match r with
  | String c r' =>
      if Ascii.eqb c dot then
        let '(v, k, _) := scan_decimal r' ip 0 in
        round_ratio v (10 ^ k)
      else round_ratio ip 1
  | EmptyString => round_ratio ip 1
  end.

(** ** C library: strtod

    [strtod(nptr, nullptr)] in the C locale, rounding to the nearest
    binary64 (ties to even): white space and a sign are skipped; then
    come INF or NAN, or a hexadecimal literal ([0x] or [0X], hexadecimal
    digits with an optional point, an optional binary exponent after [p]),
    or a decimal literal (digits with an optional point, an optional
    decimal exponent after [e]).  The longest such prefix is converted;
    when there is none the result is 0. *)

(** The longest run of digits of [base]: its value on top of [acc], the
    number of digits added to [count], and what follows. *)
Fixpoint scan_digits (base : Z) (s : string) (acc count : Z) : Z * Z * string :=
  match s with
  | String c s' =>
      match digit_value c with
      | Some d =>
          if d <? base then scan_digits base s' (acc * base + d) (count + 1)
          else (acc, count, s)
      | None => (acc, count, s)
      end
  | EmptyString => (acc, count, s)
  end.

(** Digits, an optional point, digits: all the digits read as one integer,
    how many there are, how many follow the point, and what follows. *)
Definition scan_mantissa (base : Z) (s : string) : Z * Z * Z * string :=
  let '(ip, n1, r) := scan_digits base s 0 0 in
  match r with
  | String c r' =>
      if Ascii.eqb c dot then
        let '(v, n2, r2) := scan_digits base r' ip 0 in (v, n1 + n2, n2, r2)
      else (ip, n1, 0, r)
  | EmptyString => (ip, n1, 0, r)
  end.

(** An exponent part: the marker, an optional sign and at least one
    decimal digit; anything else is no exponent. *)
Definition scan_exponent (lower upper : ascii) (s : string) : Z :=
  match s with
  | String c r =>
      if Ascii.eqb c lower || Ascii.eqb c upper then
        let '(neg, r1) :=
          match r with
          | String sg r' =>
              if Ascii.eqb sg "-"%char then (true, r')
              else if Ascii.eqb sg "+"%char then (false, r') else (false, r)
          | EmptyString => (false, r)
          end in
        let '(e, n, _) := scan_digits 10 r1 0 0 in
        if n =? 0 then 0 else if neg : bool then - e else e
      else 0
  | EmptyString => 0
  end.

(** The binary64 nearest to [num / den], for positive [num] and [den]. *)
Definition round_quotient (neg : bool) (num den : Z) : double :=
  let s := Z.max 0 (66 + Z.log2 den - Z.log2 num) in
  let q := (num * 2 ^ s) / den in
  let sticky := if (num * 2 ^ s) mod den =? 0 then 0 else 1 in
  let m := 2 * q + sticky in
  binary_normalize 53 1024 (if neg then - m else m) (- (s + 1)) neg.

(** The binary64 nearest to [m * radix ^ e]. *)
Definition round_scaled (neg : bool) (m radix e : Z) : double :=
  if m =? 0 then S754_zero neg
  else if 0 <=? e then round_quotient neg (m * radix ^ e) 1
       else round_quotient neg m (radix ^ (- e)).

Definition decimal_float (neg : bool) (s : string) : option double :=
  let '(m, n, fd, r) := scan_mantissa 10 s in
  if n =? 0 then None
  else Some (round_scaled neg m 10 (scan_exponent "e"%char "E"%char r - fd)).

Definition hex_float (neg : bool) (s : string) : option double :=
  match s with
  | String c0 (String c1 s') =>
      if Ascii.eqb c0 "0"%char && is_x c1 then
        let '(m, n, fd, r) := scan_mantissa 16 s' in
        if n =? 0 then None
        else Some (round_scaled neg m 2 (scan_exponent "p"%char "P"%char r - 4 * fd))
      else None
  | _ => None
  end.

Definition to_lower (c : ascii) : ascii :=
  let n := nat_of_ascii c in
  if (65 <=? n)%nat && (n <=? 90)%nat then ascii_of_nat (n + 32) else c.

(** [p], in lower case, starts [s] whatever the case of [s]. *)
Fixpoint prefix_ci (p s : string) : bool :=
  match p, s with
  | EmptyString, _ => true
  | String a p', String b s' => Ascii.eqb a (to_lower b) && prefix_ci p' s'
  | String _ _, EmptyString => false
  end.

Definition strtod_special (neg : bool) (s : string) : option double :=
  if prefix_ci "inf" s then Some (S754_infinity neg)
  else if prefix_ci "nan" s then Some S754_nan
  else None.

Definition libc_strtod (nptr : string) : double :=
  let s := skip_space nptr in
  let '(neg, s) :=
    match s with
    | String c s' =>
        if Ascii.eqb c "-"%char then (true, s')
        else if Ascii.eqb c "+"%char then (false, s') else (false, s)
    | EmptyString => (false, s)
    end in
  match strtod_special neg s with
  | Some v => v
  | None =>
      match hex_float neg s with
      | Some v => v
      | None =>
          match decimal_float neg s with
          | Some v => v
          | None => S754_zero false
          end
      end
  end.

(** The reading of a literal as a decimal one and nothing else: the
    stack gained the [double] that the decimal digits of the word denote. *)
Definition pushes_decimal_reading (word : string) (st st' : State) : Prop :=
  exists d, decimal_float false (c_str word) = Some d
            /\ _stack st' = (_stack st ++ [v_double d])%list.

(** ** Notions used in the statements *)

(** Every [std::string] is shorter than [npos]: its length is at most
    [max_size()], which lies below [npos]. *)
Definition representable (s : string) : Prop := size s < npos.

Definition occurs (c : ascii) (s : string) : Prop := In c (list_ascii_of_string s).

(** The matching rule for a parameter type and a stack value: the four
    storage types match values of their own variant only, [st_number]
    matches integers and doubles, [st_any] matches everything. *)
Definition tag_matches (t : datatype_t) (e : stacktype_t) : bool :=
  match t, e with
  | st_double, v_double _ => true
  | st_integer, v_integer _ => true
  | st_string, v_string _ => true
  | st_vec3, v_vec3 _ => true
  | st_number, (v_double _ | v_integer _) => true
  | st_any, _ => true
  | _, _ => false
  end.

(** The value at position [i] counted from the top, position 1 being the
    top of the stack. *)
Definition peek (i : nat) (st : State) : option stacktype_t :=
  rev (_stack st) !! (i - 1)%nat.

(** Everything but the console is the same. *)
Definition same_interpreter (st st' : State) : Prop :=
  _runtimeDictionary st' = _runtimeDictionary st
  /\ _compiletimeDictionary st' = _compiletimeDictionary st
  /\ _isCompiling st' = _isCompiling st
  /\ _newWord st' = _newWord st
  /\ _newDefinition st' = _newDefinition st
  /\ _stack st' = _stack st.


(** The top-down reading of a signature, as the specification words it:
    each [t_i] against the value at position [i] from the top. *)
Definition matches_top_down (sig : list param_t) (st : State) : Prop :=
  (length sig <= length (_stack st))%nat
  /\ (forall i pt, (1 <= i <= length sig)%nat -> sig !! (i - 1)%nat = Some pt ->
        exists e, peek i st = Some e /\ tag_matches (p_type pt) e = true).

(** The entry of the word [STO] (val var --). *)
Definition STO : word_t :=
  mkWord "store variable" [[P "val" st_number; P "var" st_string]] b_nop.

(** An evaluator that leaves the compile-time dictionary as it found it. *)
Definition keeps_compiletimeDictionary (ev : eval_t) : Prop :=
  forall word rest st rv st' rest',
    ev word rest st = Ret (rv, st', rest') ->
    _compiletimeDictionary st' = _compiletimeDictionary st.

(** The interpreters that lines of input lead to. *)
Inductive reachable (strtod : string -> double) : State -> Prop :=
| reachable_new : reachable strtod Privates
| reachable_parse fuel line st b st' line' :
    reachable strtod st ->
    parse strtod fuel line st = Ret (b, st', line') ->
    reachable strtod st'.

(** One alternative of a word's parameter list against the stack: enough
    values, and each type matching the value it faces, the last type
    facing the top. *)
Definition alternative_matches (p : list param_t) (st : State) : Prop :=
  (length p <= length (_stack st))%nat
  /\ (forall i pt, (1 <= i <= length p)%nat -> p !! (i - 1)%nat = Some pt ->
        exists e, peek (length p + 1 - i) st = Some e /\ tag_matches (p_type pt) e = true).

(** [r'] is what is left of [r] after a prefix of it was consumed. *)
Definition rest_of (r r' : string) : Prop := exists pre, r = pre +:+ r'.

(** The bodies that read or remove the top of the stack. *)
Definition needs_stack (b : body_t) : bool :=
  match b with
  | b_dup | b_drop | b_vec3_x | b_vec3_y | b_vec3_z => true
  | _ => false
  end.

(** A word of the runtime dictionary: it is not the end-of-definition
    body, and if its body uses the top of the stack, every alternative it
    declares asks for at least one value. *)
Definition runtime_word_ok (w : word_t) : Prop :=
  w_eval w <> b_semicolon
  /\ (needs_stack (w_eval w) = true ->
      w_params w <> [] /\ Forall (fun p => p <> []) (w_params w)).

(** A word of the compile-time dictionary: the end of a definition or a
    comment. *)
Definition compiletime_word_ok (w : word_t) : Prop :=
  w_eval w = b_semicolon \/ w_eval w = b_comment.

(** The compilation state: outside a definition there is neither a pending
    name nor a captured token, and no token is captured before the name. *)
Definition compile_state_ok (st : State) : Prop :=
  (_isCompiling st = false -> _newWord st = "" /\ _newDefinition st = [])
  /\ (_newWord st = "" -> _newDefinition st = []).

Definition well_formed (st : State) : Prop :=
  (forall name w, _runtimeDictionary st !! name = Some w -> runtime_word_ok w)
  /\ (forall name w, _compiletimeDictionary st !! name = Some w -> compiletime_word_ok w)
  /\ compile_state_ok st.

(** An evaluator that keeps interpreters well formed and never runs into
    a read of an empty stack. *)
Definition safe_evaluator (ev : eval_t) : Prop :=
  forall word rest st,
    well_formed st ->
    match ev word rest st with
    | Ret (_, st', _) => well_formed st'
    | Undefined => False
    | OutOfFuel => True
    end.

(** From [st] to [st'] the console was only appended to and no word of
    the runtime dictionary was removed. *)
Definition advances (st st' : State) : Prop :=
  (exists out, console st' = (console st ++ out)%list)
  /\ (forall k, is_Some (_runtimeDictionary st !! k) -> is_Some (_runtimeDictionary st' !! k)).

(** An evaluator that consumes the rest of the line from the front only
    and advances the interpreter. *)
Definition forward_evaluator (ev : eval_t) : Prop :=
  forall word rest st rv st' rest',
    representable rest ->
    ev word rest st = Ret (rv, st', rest') ->
    rest_of rest rest' /\ advances st st'.

(** The lines of a file parsed one after the other. *)
Fixpoint parse_lines (strtod : string -> double) (fuel : nat) (lines : list string)
    (st : State) : result State :=
  match lines with
  | [] => Ret st
  | line :: lines' =>
      '(_, st', _) ← parse strtod fuel line st;
      parse_lines strtod fuel lines' st'
  end.

(** The entries of the words [DUP] and [DROP]. *)
Definition DUP : word_t := mkWord "Duplicate top of stack" [[P "s1" st_any]] b_dup.
Definition DROP : word_t := mkWord "Drop top of stack" [[P "s1" st_any]] b_drop.

(** The three words that make a vector out of one number, with the body
    of each and the vector it builds. *)
Definition vec3_setters : list (string * body_t * (double -> Vec3)) := [
  ("->{X}", b_vec3_x, fun d => mkVec3 d nan nan);
  ("->{Y}", b_vec3_y, fun d => mkVec3 nan d nan);
  ("->{Z}", b_vec3_z, fun d => mkVec3 nan nan d)
].


(** Words joined by single spaces into a line that ends with [last]. *)
Fixpoint line_of (ws : list string) (last : string) : string :=
  match ws with
  | [] => last
  | w :: ws' => w +:+ String space (line_of ws' last)
  end.

(** A token that a definition captures: a non-empty word without a space
    that is not a word of the compile-time dictionary and is either a
    numeric literal or a word of the runtime dictionary. *)
Definition compilable (st : State) (t : string) : Prop :=
  t <> "" /\ ¬ occurs space t
  /\ _compiletimeDictionary st !! t = None
  /\ (isdigit (first_byte t) = true \/ is_Some (_runtimeDictionary st !! t)).

(** The entry of the word [:]. *)
Definition COLON : word_t := mkWord "Define new word" [[]] b_colon.

(** What the end of a definition makes of the interpreter. *)
Definition end_definition (st : State) : State :=
  set_newDefinition []
    (set_newWord ""
       (set_isCompiling false
          (set_runtimeDictionary
             (<[_newWord st := mkWord ("user " +:+ _newWord st) [] (b_user (_newDefinition st))]>
                (_runtimeDictionary st)) st))).

(** * Properties *)

(** ** Strings *)

Lemma size_nonneg s : 0 <= size s.
Proof. unfold size. lia. Qed.

Lemma size_String a s : size (String a s) = size s + 1.
Proof. unfold size. cbn [String.length]. lia. Qed.

Lemma append_nil t : "" +:+ t = t.
Proof. reflexivity. Qed.

Lemma append_String a s t : String a s +:+ t = String a (s +:+ t).
Proof. reflexivity. Qed.

Lemma size_app s t : size (s +:+ t) = size s + size t.
Proof.
  induction s as [|a s IH]; rewrite ?append_nil, ?append_String.
  - unfold size. cbn [String.length]. lia.
  - rewrite !size_String, IH. lia.
Qed.

Lemma find_from_absent s c i : ¬ occurs c s -> find_from s c i = npos.
Proof.
  revert i. induction s as [|a s IH]; intros i Hn; [reflexivity|].
  cbn [find_from]. destruct (Ascii.eqb_spec a c) as [->|Hne].
  - exfalso. apply Hn. left. reflexivity.
  - apply IH. intros Hin. apply Hn. right. exact Hin.
Qed.

Lemma find_from_first pre c post i :
  ¬ occurs c pre -> find_from (pre +:+ String c post) c i = i + size pre.
Proof.
  revert i. induction pre as [|a pre IH]; intros i Hn;
    rewrite ?append_nil, ?append_String; cbn [find_from].
  - rewrite Ascii.eqb_refl. unfold size. cbn [String.length]. lia.
  - destruct (Ascii.eqb_spec a c) as [->|Hne].
    + exfalso. apply Hn. left. reflexivity.
    + rewrite IH, size_String; [lia|]. intros Hin. apply Hn. right. exact Hin.
Qed.

Lemma substring_whole s : String.substring 0 (String.length s) s = s.
Proof. induction s as [|a s IH]; [reflexivity|]. cbn. now rewrite IH. Qed.

Lemma substring_prefix pre t :
  String.substring 0 (String.length pre) (pre +:+ t) = pre.
Proof.
  induction pre as [|a pre IH]; rewrite ?append_nil, ?append_String; cbn.
  - destruct t; reflexivity.
  - now rewrite IH.
Qed.

Lemma substring_suffix pre a post :
  String.substring (S (String.length pre)) (String.length post) (pre +:+ String a post) = post.
Proof.
  induction pre as [|b pre IH]; rewrite ?append_nil, ?append_String; cbn.
  - apply substring_whole.
  - exact IH.
Qed.

(** ** Tokenizer *)

(** C7. [nextWord] splits the buffer at the first occurrence of the
    delimiter: the word is what precedes it, the remaining buffer is what
    follows it and the result is its position; when the delimiter does not
    occur, the word is the whole buffer, the remaining buffer is empty and
    the result is [npos]. *)
Theorem nextWord_spec (buffer : string) (delim : ascii) :
  representable buffer ->
  (forall pre post,
      buffer = pre +:+ String delim post -> ¬ occurs delim pre ->
      nextWord buffer delim = (size pre, pre, post))
  /\ (¬ occurs delim buffer -> nextWord buffer delim = (npos, buffer, "")).
Proof.
  intros Hrep. split.
  - intros pre post -> Hpre. unfold nextWord, find.
    rewrite find_from_first by exact Hpre.
    unfold representable in Hrep. rewrite size_app, size_String in Hrep.
    pose proof (size_nonneg pre) as Hp. pose proof (size_nonneg post) as Hq.
    destruct (Z.eqb_spec (0 + size pre) npos) as [E|_]; [lia|].
    unfold substr. rewrite size_app, size_String.
    replace (Z.to_nat 0) with O by reflexivity.
    replace (Z.to_nat (Z.min (0 + size pre) (size pre + (size post + 1) - 0)))
      with (String.length pre) by (unfold size in *; lia).
    replace (Z.to_nat (0 + size pre + 1)) with (S (String.length pre))
      by (unfold size in *; lia).
    replace (Z.to_nat (Z.min npos (size pre + (size post + 1) - (0 + size pre + 1))))
      with (String.length post) by (unfold size in *; lia).
    now rewrite substring_prefix, substring_suffix.
  - intros Habs. unfold nextWord, find.
    rewrite find_from_absent by exact Habs. reflexivity.
Qed.

(** ** Stack *)

Lemma back_push (stk : list stacktype_t) v : back (stk ++ [v]) = Some v.
Proof. unfold back. apply last_snoc. Qed.

Lemma pop_back_push (stk : list stacktype_t) v : pop_back (stk ++ [v]) = stk.
Proof. unfold pop_back. apply removelast_last. Qed.

(** C8. Pushing a value of any variant and then popping returns that
    value and restores the interpreter, stack included, to what it was
    before the push. *)
Theorem stack_push_pop (v : stacktype_t) (st : State) :
  stack_pop (stack_push v st) = Some (v, st).
Proof.
  destruct st as [rd cd ic nw nd stk out].
  unfold stack_pop, stack_push, set_stack. cbn [_stack _runtimeDictionary
    _compiletimeDictionary _isCompiling _newWord _newDefinition console].
  rewrite back_push, pop_back_push. reflexivity.
Qed.

Section Evaluation.

Variable strtod : string -> double.

Lemma size_pos_iff word : (0 <? size word) = negb (String.eqb word "").
Proof.
  destruct word as [|a w]; [reflexivity|].
  rewrite size_String. pose proof (size_nonneg w).
  destruct (Z.ltb_spec 0 (size w + 1)); [reflexivity | lia].
Qed.

Lemma size_pos word : word <> "" -> (0 <? size word) = true.
Proof.
  intros H. rewrite size_pos_iff. destruct (String.eqb_spec word ""); [contradiction | reflexivity].
Qed.

(** C9. An empty word is a no-op for [eval]: the result is 0 and the
    interpreter (stack, both dictionaries, compilation state and
    console) and the rest of the line are left as they were. *)
Theorem eval_empty_word (fuel : nat) (rest : string) (st : State) :
  eval strtod (S fuel) "" rest st = Ret (0, st, rest).
Proof.
  cbn [eval]. unfold eval_body.
  rewrite size_pos_iff. rewrite String.eqb_refl. cbn [negb].
  reflexivity.
Qed.

(** C10. In compile mode with no pending name, any non-empty token
    becomes the pending name: the evaluation returns 0 and leaves the
    interpreter with [_newWord] equal to the token and everything else
    (both dictionaries, the compile flag, the captured tokens, the stack,
    the console, the rest of the line) as it was, whatever the two
    dictionaries hold and whether or not the token is numeric. *)
Theorem compile_adopts_name (fuel : nat) (word rest : string) (st : State) :
  _isCompiling st = true -> _newWord st = "" -> word <> "" ->
  eval strtod (S fuel) word rest st = Ret (0, set_newWord word st, rest)
  /\ exists st',
      eval strtod (S fuel) word rest st = Ret (0, st', rest)
      /\ _newWord st' = word
      /\ _isCompiling st' = true
      /\ _newDefinition st' = _newDefinition st
      /\ _runtimeDictionary st' = _runtimeDictionary st
      /\ _compiletimeDictionary st' = _compiletimeDictionary st
      /\ _stack st' = _stack st
      /\ console st' = console st.
Proof.
  intros Hc Hn Hw.
  assert (He : eval strtod (S fuel) word rest st = Ret (0, set_newWord word st, rest)).
  { cbn [eval]. unfold eval_body, compiletime_eval.
    rewrite size_pos by exact Hw. rewrite Hc, Hn. reflexivity. }
  split; [exact He|].
  exists (set_newWord word st). split; [exact He|].
  cbn [set_newWord _newWord _isCompiling _newDefinition _runtimeDictionary
       _compiletimeDictionary _stack console].
  split; [reflexivity|]. split; [exact Hc|].
  split; [reflexivity|]. split; [reflexivity|].
  split; [reflexivity|]. split; reflexivity.
Qed.

(** *** Unknown words *)


(** *** End of a definition *)

(** C5. In compile mode with a pending name, [;] stores under that name
    an entry whose body is the list of captured tokens, replacing what
    the runtime dictionary held there and printing nothing, and then
    clears [_isCompiling], [_newWord] and [_newDefinition].  Calling
    the stored body evaluates the captured tokens one after the other,
    each with an empty rest of line. *)
Theorem semicolon_installs_definition
    (fuel : nat) (rest : string) (st : State) (cw : word_t) :
  _isCompiling st = true -> _newWord st <> "" ->
  _compiletimeDictionary st !! ";" = Some cw -> w_eval cw = b_semicolon ->
  let wl := _newDefinition st in
  let entry := mkWord ("user " +:+ _newWord st) [] (b_user wl) in
  exists st',
    eval strtod (S fuel) ";" rest st = Ret (0, st', rest)
    /\ _runtimeDictionary st' = <[_newWord st := entry]> (_runtimeDictionary st)
    /\ _runtimeDictionary st' !! _newWord st = Some entry
    /\ (forall k, k <> _newWord st ->
                  _runtimeDictionary st' !! k = _runtimeDictionary st !! k)
    /\ _isCompiling st' = false /\ _newWord st' = "" /\ _newDefinition st' = []
    /\ _stack st' = _stack st /\ console st' = console st
    /\ _compiletimeDictionary st' = _compiletimeDictionary st
    /\ (forall ev word r s, call ev (w_eval entry) word r s
                            = (s' ← user_eval_loop ev wl s; Ret (0, s', r)))
    /\ (forall ev s, user_eval_loop ev [] s = Ret s)
    /\ (forall ev w ws s,
           user_eval_loop ev (w :: ws) s
           = ('(_, s', _) ← ev w "" s; user_eval_loop ev ws s')).
Proof.
  intros Hc Hn Hl Hb wl entry.
  eexists. split.
  { cbn [eval]. unfold eval_body, compiletime_eval.
    rewrite size_pos by discriminate. rewrite Hc.
    destruct (String.eqb_spec (_newWord st) "") as [E|_]; [contradiction|].
    rewrite Hl, Hb. cbn [call]. reflexivity. }
  cbn [_runtimeDictionary _isCompiling _newWord _newDefinition _stack console
       _compiletimeDictionary set_newDefinition set_newWord set_isCompiling
       set_runtimeDictionary].
  repeat split.
  - apply lookup_insert_eq.
  - intros k Hk. apply lookup_insert_ne. congruence.
  - intros ev word r s. cbn [call w_eval entry]. unfold user_eval.
    destruct (user_eval_loop ev wl s); reflexivity.
Qed.

End Evaluation.

(** ** Numeric literals *)

Lemma isdigit_facts (a : ascii) :
  isdigit a = true ->
  isspace a = false /\ Ascii.eqb a "-"%char = false /\ Ascii.eqb a "+"%char = false
  /\ Ascii.eqb a Ascii.zero = false /\ Ascii.eqb a dot = false.
Proof.
  destruct a as [[] [] [] [] [] [] [] []]; vm_compute; intros H;
    try discriminate H; repeat split.
Qed.

Lemma c_str_digit_led (a : ascii) (w : string) :
  isdigit a = true -> c_str (String a w) = String a (c_str w).
Proof.
  intros H. cbn [c_str]. destruct (isdigit_facts a H) as (_ & _ & _ & -> & _). reflexivity.
Qed.

(** With a digit in front there is no white space and no sign to skip. *)
Lemma strtol_digit_led (a : ascii) (w : string) :
  isdigit a = true ->
  strtol (String a w)
  = Z.min (strtol_digits (detect_base (String a w)).1 (detect_base (String a w)).2 0) LONG_MAX.
Proof.
  intros H. destruct (isdigit_facts a H) as (Hs & Hm & Hp & _ & _).
  unfold strtol. cbn [skip_space]. rewrite Hs, Hm, Hp.
  destruct (detect_base (String a w)) as [base digits]. reflexivity.
Qed.

Lemma strtol_digits_stop (base : Z) (s : string) (acc : Z) :
  is_digit_of base (first_byte s) = false -> strtol_digits base s acc = acc.
Proof.
  destruct s as [|c s]; [reflexivity|]. cbn [first_byte strtol_digits].
  unfold is_digit_of. destruct (digit_value c) as [d|]; [|reflexivity].
  intros ->. reflexivity.
Qed.

Lemma first_byte_c_str (s : string) :
  first_byte (c_str s) = first_byte s.
Proof.
  destruct s as [|c s]; [reflexivity|]. cbn [c_str first_byte].
  destruct (Ascii.eqb_spec c Ascii.zero) as [->|_]; reflexivity.
Qed.

Lemma is_x_not_nul (c : ascii) : is_x c = true -> Ascii.eqb c Ascii.zero = false.
Proof.
  unfold is_x. destruct (Ascii.eqb_spec c "x"%char) as [->|_]; [reflexivity|].
  destruct (Ascii.eqb_spec c "X"%char) as [->|_]; [reflexivity|discriminate].
Qed.

Lemma strtol_digits_0x (x : ascii) (s : string) :
  is_x x = true -> strtol_digits 8 (String "0"%char (String x s)) 0 = 0.
Proof.
  unfold is_x. destruct (Ascii.eqb_spec x "x"%char) as [->|_]; [reflexivity|].
  destruct (Ascii.eqb_spec x "X"%char) as [->|_]; [reflexivity|discriminate].
Qed.

(** A [0x] or [0X] prefix: base 16. *)
Lemma strtol_hex (x : ascii) (d : string) :
  is_x x = true ->
  strtol (c_str (String "0"%char (String x d)))
  = Z.min (strtol_digits 16 (c_str d) 0) LONG_MAX.
Proof.
  intros Hx. rewrite c_str_digit_led by reflexivity.
  cbn [c_str]. rewrite (is_x_not_nul x Hx).
  rewrite strtol_digit_led by reflexivity.
  cbn [detect_base]. rewrite Ascii.eqb_refl, Hx. cbn [andb].
  destruct (is_digit_of 16 (first_byte (c_str d))) eqn:Hd; cbn [fst snd]; [reflexivity|].
  rewrite (strtol_digits_stop 16 (c_str d) 0 Hd).
  rewrite strtol_digits_0x by exact Hx. reflexivity.
Qed.

(** A leading [0] not followed by [x] or [X]: base 8. *)
Lemma strtol_octal (d : string) :
  is_x (first_byte d) = false ->
  strtol (c_str (String "0"%char d))
  = Z.min (strtol_digits 8 (c_str (String "0"%char d)) 0) LONG_MAX.
Proof.
  intros Hx. rewrite c_str_digit_led by reflexivity.
  rewrite strtol_digit_led by reflexivity.
  rewrite <- first_byte_c_str in Hx.
  destruct (c_str d) as [|c1 s'] eqn:E; cbn [detect_base].
  - rewrite Ascii.eqb_refl. reflexivity.
  - rewrite Ascii.eqb_refl. cbn [first_byte] in Hx. rewrite Hx. reflexivity.
Qed.

(** Any other leading digit: base 10. *)
Lemma strtol_decimal (a : ascii) (w : string) :
  isdigit a = true -> a <> "0"%char ->
  strtol (c_str (String a w))
  = Z.min (strtol_digits 10 (c_str (String a w)) 0) LONG_MAX.
Proof.
  intros Ha Hz. rewrite c_str_digit_led by exact Ha.
  rewrite strtol_digit_led by exact Ha.
  destruct (c_str w) as [|c1 s']; cbn [detect_base];
    destruct (Ascii.eqb_spec a "0"%char) as [E|_]; try contradiction; reflexivity.
Qed.

Lemma find_present (s : string) (c : ascii) :
  representable s -> occurs c s -> (find s c =? npos) = false.
Proof.
  intros Hrep Hocc. unfold find.
  assert (G : forall i, 0 <= i -> 0 <= find_from s c i < i + size s).
  { revert Hocc. clear Hrep. induction s as [|a s IH]; intros Hocc i Hi.
    - destruct Hocc.
    - cbn [find_from]. rewrite size_String. pose proof (size_nonneg s).
      destruct (Ascii.eqb_spec a c) as [->|Hne]; [lia|].
      destruct Hocc as [E|Hin]; [congruence|].
      specialize (IH Hin (i + 1)). lia. }
  specialize (G 0). unfold representable in Hrep.
  destruct (Z.eqb_spec (find_from s c 0) npos); [lia | reflexivity].
Qed.

(** *** strtod on a word that starts with a digit *)

Lemma isdigit_digit_value (a : ascii) :
  isdigit a = true -> exists d, digit_value a = Some d /\ 0 <= d < 10.
Proof.
  unfold isdigit, digit_value. set (n := Z.of_nat (nat_of_ascii a)).
  intros H. rewrite H. exists (n - 48). split; [reflexivity|].
  apply andb_prop in H as [H1 H2]. lia.
Qed.

Lemma scan_digits_count (base : Z) (s : string) (acc count : Z) :
  count <= (scan_digits base s acc count).1.2.
Proof.
  revert acc count. induction s as [|c s IH]; intros acc count; cbn [scan_digits].
  - cbn. lia.
  - destruct (digit_value c) as [d|]; [|cbn; lia].
    destruct (d <? base); [|cbn; lia].
    specialize (IH (acc * base + d) (count + 1)). lia.
Qed.

Lemma strtod_special_digit_led (a : ascii) (w : string) (neg : bool) :
  isdigit a = true -> strtod_special neg (String a w) = None.
Proof.
  unfold strtod_special. cbn [prefix_ci].
  destruct a as [[] [] [] [] [] [] [] []]; vm_compute; intros H;
    try discriminate H; reflexivity.
Qed.

(** With a digit in front, [strtod] reads a hexadecimal literal when there
    is one and a decimal literal otherwise. *)
Lemma libc_strtod_digit_led (a : ascii) (w : string) :
  isdigit a = true ->
  libc_strtod (String a w)
  = match hex_float false (String a w) with
    | Some v => v
    | None =>
        match decimal_float false (String a w) with
        | Some v => v
        | None => S754_zero false
        end
    end.
Proof.
  intros H. destruct (isdigit_facts a H) as (Hs & Hm & Hp & _ & _).
  unfold libc_strtod. cbn [skip_space]. rewrite Hs, Hm, Hp.
  rewrite (strtod_special_digit_led a w false H). reflexivity.
Qed.

(** A word that starts with a digit always has a decimal reading. *)
Lemma decimal_float_digit_led (a : ascii) (w : string) (neg : bool) :
  isdigit a = true -> exists v, decimal_float neg (String a w) = Some v.
Proof.
  intros H. destruct (isdigit_digit_value a H) as (d & Hd & Hr).
  unfold decimal_float, scan_mantissa. cbn [scan_digits]. rewrite Hd.
  destruct (Z.ltb_spec d 10) as [_|Hge]; [|lia].
  pose proof (scan_digits_count 10 w (0 * 10 + d) (0 + 1)) as Hn.
  destruct (scan_digits 10 w (0 * 10 + d) (0 + 1)) as [[ip n1] r]. cbn [fst snd] in Hn.
  destruct r as [|c r'].
  - destruct (Z.eqb_spec n1 0); [lia|]. eexists. reflexivity.
  - destruct (Ascii.eqb c dot).
    + pose proof (scan_digits_count 10 r' ip 0) as Hn2.
      destruct (scan_digits 10 r' ip 0) as [[v n2] r2]. cbn [fst snd] in Hn2.
      destruct (Z.eqb_spec (n1 + n2) 0); [lia|]. eexists. reflexivity.
    + destruct (Z.eqb_spec n1 0); [lia|]. eexists. reflexivity.
Qed.

(** C6, as the code has it.  In runtime mode a word that starts with a
    digit is a literal: its evaluation returns 0 and changes nothing but
    the stack, which gains one value.  If the word contains a '.', that
    value is the [double] that [strtod] reads from it: the hexadecimal
    literal after a [0x] or [0X] prefix when there is one, the decimal
    literal otherwise, rounded to the nearest [double].  If it contains
    no '.', the value is the [long] that [strtol] reads from it with base
    detection: after [0x] or [0X] the digits are read in base 16, after
    another leading [0] in base 8, and otherwise in base 10, values
    beyond [LONG_MAX] being clamped to it. *)
Theorem numeric_literal_pushed (fuel : nat) (word rest : string) (st : State) :
  _isCompiling st = false -> representable word -> isdigit (first_byte word) = true ->
  exists st',
    eval libc_strtod (S fuel) word rest st = Ret (0, st', rest)
    /\ _runtimeDictionary st' = _runtimeDictionary st
    /\ _compiletimeDictionary st' = _compiletimeDictionary st
    /\ _isCompiling st' = false /\ _newWord st' = _newWord st
    /\ _newDefinition st' = _newDefinition st /\ console st' = console st
    /\ (occurs dot word ->
        _stack st' = (_stack st ++ [v_double (libc_strtod (c_str word))])%list)
    /\ (¬ occurs dot word ->
        _stack st' = (_stack st ++ [v_integer (strtol (c_str word))])%list)
    /\ (forall v, hex_float false (c_str word) = Some v -> libc_strtod (c_str word) = v)
    /\ (hex_float false (c_str word) = None ->
        decimal_float false (c_str word) = Some (libc_strtod (c_str word)))
    /\ (forall x d, word = String "0"%char (String x d) -> is_x x = true ->
        strtol (c_str word) = Z.min (strtol_digits 16 (c_str d) 0) LONG_MAX)
    /\ (forall d, word = String "0"%char d -> is_x (first_byte d) = false ->
        strtol (c_str word) = Z.min (strtol_digits 8 (c_str word) 0) LONG_MAX)
    /\ (first_byte word <> "0"%char ->
        strtol (c_str word) = Z.min (strtol_digits 10 (c_str word) 0) LONG_MAX).
Proof.
  intros Hc Hrep Hd.
  assert (Hw : word <> "") by (intros ->; discriminate Hd).
  assert (Hev : eval libc_strtod (S fuel) word rest st
                = if negb (find word dot =? npos)
                  then Ret (0, stack_push (v_double (libc_strtod (c_str word))) st, rest)
                  else Ret (0, stack_push (v_integer (strtol (c_str word))) st, rest)).
  { cbn [eval]. unfold eval_body, runtime_eval.
    rewrite size_pos by exact Hw. rewrite Hc, Hd. reflexivity. }
  assert (Hstr : exists a w, c_str word = String a w /\ isdigit a = true).
  { destruct word as [|a w]; [contradiction|]. cbn [first_byte] in Hd.
    exists a, (c_str w). split; [apply c_str_digit_led; exact Hd|exact Hd]. }
  destruct Hstr as (a & w & Hcs & Ha).
  destruct (negb (find word dot =? npos)) eqn:Ef.
  - exists (stack_push (v_double (libc_strtod (c_str word))) st).
    split; [exact Hev|].
    cbn [stack_push set_stack _runtimeDictionary _compiletimeDictionary _isCompiling
         _newWord _newDefinition _stack console].
    split; [reflexivity|]. split; [reflexivity|]. split; [exact Hc|].
    split; [reflexivity|]. split; [reflexivity|]. split; [reflexivity|].
    split; [intros _; reflexivity|]. split.
    { intros Habs. unfold find in Ef. rewrite find_from_absent in Ef by exact Habs.
      discriminate Ef. }
    split.
    { intros v Hv. rewrite Hcs in *. rewrite (libc_strtod_digit_led a w Ha), Hv. reflexivity. }
    split.
    { intros Hn. rewrite Hcs in *. rewrite (libc_strtod_digit_led a w Ha), Hn.
      destruct (decimal_float_digit_led a w false Ha) as [v ->]. reflexivity. }
    split; [intros x d -> Hx; apply strtol_hex; exact Hx|].
    split; [intros d -> Hx; apply strtol_octal; exact Hx|].
    intros Hz. destruct word as [|a' w']; [contradiction|].
    apply strtol_decimal; assumption.
  - exists (stack_push (v_integer (strtol (c_str word))) st).
    split; [exact Hev|].
    cbn [stack_push set_stack _runtimeDictionary _compiletimeDictionary _isCompiling
         _newWord _newDefinition _stack console].
    split; [reflexivity|]. split; [reflexivity|]. split; [exact Hc|].
    split; [reflexivity|]. split; [reflexivity|]. split; [reflexivity|].
    split.
    { intros Hocc. rewrite (find_present word dot Hrep Hocc) in Ef. discriminate Ef. }
    split; [intros _; reflexivity|].
    split.
    { intros v Hv. rewrite Hcs in *. rewrite (libc_strtod_digit_led a w Ha), Hv. reflexivity. }
    split.
    { intros Hn. rewrite Hcs in *. rewrite (libc_strtod_digit_led a w Ha), Hn.
      destruct (decimal_float_digit_led a w false Ha) as [v ->]. reflexivity. }
    split; [intros x d -> Hx; apply strtol_hex; exact Hx|].
    split; [intros d -> Hx; apply strtol_octal; exact Hx|].
    intros Hz. destruct word as [|a' w']; [contradiction|].
    apply strtol_decimal; assumption.
Qed.

(** ** Validator *)

Lemma datatype_eq_index (t : datatype_t) (e : stacktype_t) :
  datatype_eq t (index e) = tag_matches t e.
Proof. destruct t, e; reflexivity. Qed.

Lemma top_types_loop_length (stk : list stacktype_t) (count ri : nat) :
  (ri + 1 = count)%nat -> (count <= length stk)%nat ->
  length (top_types_loop stk count ri) = count.
Proof.
  revert ri. induction count as [|count IH]; intros ri Hri Hlen; [reflexivity|].
  cbn [top_types_loop].
  destruct (lookup_lt_is_Some_2 (rev stk) ri) as [e He]; [rewrite length_rev; lia|].
  rewrite He. cbn [length]. f_equal.
  destruct count as [|count']; [reflexivity|]. apply IH; lia.
Qed.

Lemma top_types_loop_lookup (stk : list stacktype_t) (count ri j : nat) :
  (ri + 1 = count)%nat -> (count <= length stk)%nat -> (j < count)%nat ->
  top_types_loop stk count ri !! j = index <$> (rev stk !! (ri - j)%nat).
Proof.
  revert ri j. induction count as [|count IH]; intros ri j Hri Hlen Hj; [lia|].
  cbn [top_types_loop].
  destruct (lookup_lt_is_Some_2 (rev stk) ri) as [e He]; [rewrite length_rev; lia|].
  rewrite He. destruct j as [|j'].
  - rewrite Nat.sub_0_r, He. reflexivity.
  - cbn [lookup list_lookup]. rewrite IH by lia. do 2 f_equal. lia.
Qed.

Lemma pred_loop_true (p : list param_t) (tv : list Z) :
  length p = length tv ->
  pred_loop p tv = true <->
  (forall j pt t, p !! j = Some pt -> tv !! j = Some t -> datatype_eq (p_type pt) t = true).
Proof.
  revert tv. induction p as [|pi p IH]; intros [|ti tv] Hlen; try discriminate Hlen.
  - split; [|reflexivity]. intros _ j pt t H. destruct j; discriminate H.
  - cbn [pred_loop]. injection Hlen as Hlen. split.
    + destruct (datatype_eq (p_type pi) ti) eqn:E; [|discriminate].
      intros Hrec [|j] pt t Hp Ht.
      * cbn in Hp, Ht. congruence.
      * cbn in Hp, Ht. exact (proj1 (IH tv Hlen) Hrec j pt t Hp Ht).
    + intros H. rewrite (H O pi ti eq_refl eq_refl).
      apply IH; [exact Hlen|]. intros j pt t Hp Ht. exact (H (S j) pt t Hp Ht).
Qed.

(** A single signature: the outcome of the validator and what it prints. *)
Lemma validate_single (name : string) (w : word_t) (sig : list param_t) (st : State) :
  w_params w = [sig] ->
  validate_stack_for_word (name, w) st
  = if (length sig =? 0)%nat then (true, st)
    else if (length (_stack st) <? length sig)%nat
         then (false, (top_of_stack_types (length sig) st).2)
         else (pred_loop sig (top_types_loop (_stack st) (length sig) (length sig - 1)), st).
Proof.
  intros Hp. unfold validate_stack_for_word. cbn [snd]. rewrite Hp.
  cbn [length nth Nat.eqb orb andb validate_loop].
  destruct (Nat.eqb_spec (length sig) 0) as [E|E]; [reflexivity|].
  unfold top_of_stack_types.
  destruct (Nat.ltb_spec (length (_stack st)) (length sig)) as [Hlt|Hge]; [reflexivity|].
  rewrite top_types_loop_length by lia.
  destruct (Nat.eqb_spec (length sig) 0); [contradiction|reflexivity].
Qed.

Lemma printf_same (s : string) (st : State) : same_interpreter st (printf s st).
Proof. repeat split. Qed.

Lemma print_stack_same (st : State) : same_interpreter st (print_stack st).
Proof. repeat split. Qed.

Lemma same_interpreter_trans (a b c : State) :
  same_interpreter a b -> same_interpreter b c -> same_interpreter a c.
Proof.
  unfold same_interpreter. intros (A1 & A2 & A3 & A4 & A5 & A6) (B1 & B2 & B3 & B4 & B5 & B6).
  repeat split; congruence.
Qed.

Lemma same_interpreter_refl (a : State) : same_interpreter a a.
Proof. repeat split. Qed.

Lemma top_of_stack_types_same (n : nat) (st : State) :
  same_interpreter st (top_of_stack_types n st).2.
Proof.
  unfold top_of_stack_types. destruct (length (_stack st) <? n)%nat; cbn [snd].
  - apply printf_same.
  - apply same_interpreter_refl.
Qed.

(** ** The compile-time dictionary is never written *)

Lemma validate_loop_same (ps : list (list param_t)) (rv : bool) (st : State) :
  same_interpreter st (validate_loop ps rv st).2.
Proof.
  revert rv st. induction ps as [|p ps IH]; intros rv st; cbn [validate_loop].
  - apply same_interpreter_refl.
  - destruct rv; [apply same_interpreter_refl|].
    pose proof (top_of_stack_types_same (length p) st) as Ht.
    destruct (top_of_stack_types (length p) st) as [tv st1]. cbn [snd] in Ht.
    eapply same_interpreter_trans; [exact Ht|apply IH].
Qed.

Lemma validate_same (de : string * word_t) (st : State) :
  same_interpreter st (validate_stack_for_word de st).2.
Proof. unfold validate_stack_for_word. apply validate_loop_same. Qed.

Lemma user_eval_loop_keeps (ev : eval_t) (wl : list string) (st st' : State) :
  keeps_compiletimeDictionary ev ->
  user_eval_loop ev wl st = Ret st' ->
  _compiletimeDictionary st' = _compiletimeDictionary st.
Proof.
  intros Hev. revert st. induction wl as [|w ws IH]; intros st H; cbn [user_eval_loop] in H.
  - injection H as <-. reflexivity.
  - destruct (ev w "" st) as [[[rv s1] r1]| |] eqn:E; cbn in H; try discriminate H.
    rewrite (IH _ H). exact (Hev _ _ _ _ _ _ E).
Qed.

Lemma stack_pop_keeps (st st' : State) (v : stacktype_t) :
  stack_pop st = Some (v, st') -> _compiletimeDictionary st' = _compiletimeDictionary st.
Proof.
  unfold stack_pop. destruct (back (_stack st)); [|discriminate].
  intros H. injection H as _ <-. reflexivity.
Qed.

Lemma stack_pop_as_double_keeps (st st' : State) (d : double) :
  stack_pop_as_double st = Some (d, st') ->
  _compiletimeDictionary st' = _compiletimeDictionary st.
Proof.
  unfold stack_pop_as_double. destruct (stack_pop st) as [[v s1]|] eqn:E; [|discriminate].
  intros H. injection H as _ <-. exact (stack_pop_keeps _ _ _ E).
Qed.

Lemma call_keeps (ev : eval_t) (b : body_t) :
  keeps_compiletimeDictionary ev -> keeps_compiletimeDictionary (call ev b).
Proof.
  intros Hev word rest st rv st' rest' H.
  destruct b; cbn [call] in H.
  - injection H as _ <- _. reflexivity.
  - injection H as _ <- _. reflexivity.
  - destruct (nextWord rest quote) as [[p lit] r1].
    destruct (negb (p =? npos)); injection H as _ <- _; reflexivity.
  - unfold parse_comment in H. destruct (nextWord rest rparen) as [[p c] r1].
    destruct (negb (p =? npos)); injection H as _ <- _; reflexivity.
  - injection H as _ <- _. reflexivity.
  - destruct (back (_stack st)); cbn in H; [|discriminate H].
    injection H as _ <- _. reflexivity.
  - destruct (stack_pop st) as [[v s1]|] eqn:E; cbn in H; [|discriminate H].
    injection H as _ <- _. exact (stack_pop_keeps _ _ _ E).
  - destruct (stack_pop_as_double st) as [[v s1]|] eqn:E; cbn in H; [|discriminate H].
    injection H as _ <- _. exact (stack_pop_as_double_keeps _ _ _ E).
  - destruct (stack_pop_as_double st) as [[v s1]|] eqn:E; cbn in H; [|discriminate H].
    injection H as _ <- _. exact (stack_pop_as_double_keeps _ _ _ E).
  - destruct (stack_pop_as_double st) as [[v s1]|] eqn:E; cbn in H; [|discriminate H].
    injection H as _ <- _. exact (stack_pop_as_double_keeps _ _ _ E).
  - injection H as _ <- _. reflexivity.
  - unfold user_eval in H.
    destruct (user_eval_loop ev wl st) as [s1| |] eqn:E; cbn in H; try discriminate H.
    injection H as _ <- _. exact (user_eval_loop_keeps ev wl st s1 Hev E).
Qed.

Section Invariant.

Variable strtod : string -> double.

Lemma eval_body_keeps (ev : eval_t) :
  keeps_compiletimeDictionary ev -> keeps_compiletimeDictionary (eval_body strtod ev).
Proof.
  intros Hev word rest st rv st' rest' H. unfold eval_body in H.
  destruct (0 <? size word); [|injection H as _ <- _; reflexivity].
  destruct (_isCompiling st).
  - unfold compiletime_eval in H.
    destruct (String.eqb (_newWord st) ""); [injection H as _ <- _; reflexivity|].
    destruct (_compiletimeDictionary st !! word) as [cw|].
    + exact (call_keeps ev (w_eval cw) Hev _ _ _ _ _ _ H).
    + destruct (isdigit (first_byte word)); [injection H as _ <- _; reflexivity|].
      destruct (_runtimeDictionary st !! word); injection H as _ <- _; reflexivity.
  - unfold runtime_eval in H.
    destruct (isdigit (first_byte word)).
    + destruct (negb (find word dot =? npos)); injection H as _ <- _; reflexivity.
    + destruct (_runtimeDictionary st !! word) as [we|];
        [|injection H as _ <- _; reflexivity].
      pose proof (validate_same (word, we) st) as (_ & Hs & _).
      destruct (validate_stack_for_word (word, we) st) as [ok st1]. cbn [snd] in Hs.
      destruct ok.
      * rewrite (call_keeps ev (w_eval we) Hev _ _ _ _ _ _ H). exact Hs.
      * injection H as _ <- _. exact Hs.
Qed.

(** No evaluation changes the compile-time dictionary: it stays the one
    the constructor built. *)
Lemma eval_keeps (fuel : nat) : keeps_compiletimeDictionary (eval strtod fuel).
Proof.
  induction fuel as [|fuel IH].
  - intros word rest st rv st' rest' H. discriminate H.
  - cbn [eval]. apply eval_body_keeps. exact IH.
Qed.

Lemma parse_keeps (fuel : nat) (line : string) (st : State) b st' line' :
  parse strtod fuel line st = Ret (b, st', line') ->
  _compiletimeDictionary st' = _compiletimeDictionary st.
Proof.
  revert line st. induction fuel as [|fuel IH]; intros line st H; [discriminate H|].
  cbn [parse] in H. destruct (0 <? size line); [|injection H as _ <- _; reflexivity].
  destruct (nextWord line space) as [[p1 word] line1].
  destruct (eval strtod fuel word line1 st) as [[[s st1] line2]| |] eqn:E;
    cbn in H; try discriminate H.
  rewrite (IH _ _ H). exact (eval_keeps fuel _ _ _ _ _ _ E).
Qed.

(** Every interpreter reached from a new one has the compile-time
    dictionary of a new one: the words [;] and [(], neither of which takes
    parameters. *)
Lemma reachable_compiletimeDictionary (st : State) :
  reachable strtod st ->
  _compiletimeDictionary st = _compiletimeDictionary Privates.
Proof.
  induction 1 as [|fuel line st b st' line' _ IH Hp].
  - reflexivity.
  - rewrite (parse_keeps _ _ _ _ _ _ Hp). exact IH.
Qed.

Lemma reachable_semicolon (st : State) :
  reachable strtod st ->
  _compiletimeDictionary st !! ";" = Some (mkWord "End Definition" [[]] b_semicolon).
Proof.
  intros H. rewrite (reachable_compiletimeDictionary st H). vm_compute. reflexivity.
Qed.

Lemma compiletime_words_no_parameters (name : string) (w : word_t) :
  _compiletimeDictionary Privates !! name = Some w -> w_params w = [[]].
Proof.
  change (_compiletimeDictionary Privates)
    with (<["(" := mkWord "Commment" [[]] b_comment]>
            (<[";" := mkWord "End Definition" [[]] b_semicolon]> (∅ : gmap string word_t))).
  intros H.
  apply lookup_insert_Some in H as [[_ <-]|[_ H]]; [reflexivity|].
  apply lookup_insert_Some in H as [[_ <-]|[_ H]]; [reflexivity|].
  rewrite lookup_empty in H. discriminate H.
Qed.

End Invariant.

Section Validation.

Variable strtod : string -> double.

(** C3, as the code has it.  For a word with the single signature
    [t1..tk], validation succeeds exactly when the stack holds at least
    k values and each [t_i] matches the value at position k+1-i from
    the top: the signature is read deepest value first, its last type
    facing the top of the stack.  The runtime evaluator calls the body of
    the word when validation succeeds; when it fails the word returns 0
    having only printed.  The compile-time evaluator calls the words of
    its own dictionary without validating them; in every interpreter
    reached from a new one these are [;] and [(], whose validation
    succeeds on any stack. *)
Theorem validate_strict_signature
    (name : string) (w : word_t) (sig : list param_t) (st : State) :
  w_params w = [sig] ->
  let k := length sig in
  ((validate_stack_for_word (name, w) st).1 = true <->
     (k <= length (_stack st))%nat
     /\ (forall i pt, (1 <= i <= k)%nat -> sig !! (i - 1)%nat = Some pt ->
           exists e, peek (k + 1 - i) st = Some e /\ tag_matches (p_type pt) e = true))
  /\ (forall fuel rest,
        _isCompiling st = false -> name <> "" -> isdigit (first_byte name) = false ->
        _runtimeDictionary st !! name = Some w ->
        if (validate_stack_for_word (name, w) st).1
        then eval strtod (S fuel) name rest st
             = call (eval strtod fuel) (w_eval w) name rest st
        else
          let st1 := (validate_stack_for_word (name, w) st).2 in
          let st2 := printf ("parameters not right for '" +:+ c_str name
                             +:+ "'" +:+ newline) st1 in
          let st4 := printf (c_str (to_string_word name w)) (print_stack st2) in
          eval strtod (S fuel) name rest st = Ret (0, st4, rest)
          /\ same_interpreter st st4)
  /\ (reachable strtod st ->
      forall cname cw, _compiletimeDictionary st !! cname = Some cw ->
                       (validate_stack_for_word (cname, cw) st).1 = true).
Proof.
  intros Hp k. pose proof (validate_single name w sig st Hp) as Hv. fold k in Hv.
  split; [|split].
  - rewrite Hv. destruct (Nat.eqb_spec k 0) as [E0|E0]; cbn [fst].
    + split; [|reflexivity]. intros _. split; [lia|]. intros i pt Hi. lia.
    + destruct (Nat.ltb_spec (length (_stack st)) k) as [Hlt|Hge]; cbn [fst].
      * split; [discriminate|]. intros [Hk _]. lia.
      * rewrite pred_loop_true by (rewrite top_types_loop_length; [reflexivity|lia|lia]).
        split.
        -- intros H. split; [exact Hge|]. intros i pt Hi Hs.
           destruct (lookup_lt_is_Some_2 (rev (_stack st)) (k + 1 - i - 1)) as [e He];
             [rewrite length_rev; lia|].
           exists e. unfold peek. split; [exact He|].
           rewrite <- datatype_eq_index.
           apply (H (i - 1)%nat pt (index e) Hs).
           rewrite top_types_loop_lookup by lia.
           replace (k - 1 - (i - 1))%nat with (k + 1 - i - 1)%nat by lia.
           rewrite He. reflexivity.
        -- intros [_ H] j pt t Hs Ht.
           assert (Hj : (j < k)%nat) by (apply lookup_lt_Some in Hs; exact Hs).
           rewrite top_types_loop_lookup in Ht by lia.
           destruct (H (S j) pt) as (e & He & Hm); [lia| |].
           { replace (S j - 1)%nat with j by lia. exact Hs. }
           unfold peek in He.
           replace (k + 1 - S j - 1)%nat with (k - 1 - j)%nat in He by lia.
           rewrite He in Ht. injection Ht as <-.
           rewrite datatype_eq_index. exact Hm.
  - intros fuel rest Hc Hn Hd Hl.
    assert (Hev : eval strtod (S fuel) name rest st
                  = let '(ok, st1) := validate_stack_for_word (name, w) st in
                    if ok then call (eval strtod fuel) (w_eval w) name rest st1
                    else Ret (0, printf (c_str (to_string_word name w))
                                   (print_stack
                                      (printf ("parameters not right for '" +:+ c_str name
                                               +:+ "'" +:+ newline) st1)), rest)).
    { cbn [eval]. unfold eval_body, runtime_eval.
      rewrite size_pos by exact Hn. rewrite Hc, Hd, Hl. reflexivity. }
    rewrite Hev. clear Hev.
    destruct (validate_stack_for_word (name, w) st) as [ok st1] eqn:Ev. cbn [fst snd].
    destruct ok.
    + replace st1 with st; [reflexivity|].
      destruct (Nat.eqb_spec k 0); [congruence|].
      destruct (Nat.ltb_spec (length (_stack st)) k); congruence.
    + cbv zeta. split; [reflexivity|].
      assert (Hs1 : same_interpreter st st1).
      { destruct (Nat.eqb_spec k 0); [congruence|].
        destruct (Nat.ltb_spec (length (_stack st)) k).
        - injection Hv as ->. apply top_of_stack_types_same.
        - injection Hv as _ ->. apply same_interpreter_refl. }
      eapply same_interpreter_trans; [exact Hs1|].
      eapply same_interpreter_trans; [apply printf_same|].
      eapply same_interpreter_trans; [apply print_stack_same|apply printf_same].
  - intros Hreach cname cw Hl.
    rewrite (reachable_compiletimeDictionary strtod st Hreach) in Hl.
    rewrite (validate_single cname cw [] st (compiletime_words_no_parameters cname cw Hl)).
    reflexivity.
Qed.

End Validation.

(** ** The line loop *)

Section Lines.

Variable strtod : string -> double.

(** [parse] has one result: whatever the evaluators return, it goes on
    until the line is used up and returns [true]. *)
Lemma parse_returns_true (fuel : nat) (line : string) (st : State) b st' line' :
  parse strtod fuel line st = Ret (b, st', line') -> b = true /\ line' = "".
Proof.
  revert line st. induction fuel as [|fuel IH]; intros line st H; [discriminate H|].
  cbn [parse] in H. rewrite size_pos_iff in H.
  destruct (String.eqb_spec line "") as [->|Hne]; cbn [negb] in H.
  - injection H as <- _ <-. split; reflexivity.
  - destruct (nextWord line space) as [[p1 word] line1].
    destruct (eval strtod fuel word line1 st) as [[[s st1] line2]| |];
      cbn in H; try discriminate H.
    exact (IH _ _ H).
Qed.

(** Consequently [loadFile] never sees [parse] fail: its result only says
    whether the file had any line. *)
Lemma loadFile_loop_true (fuel : nat) (path : string) (lines : list string)
    (lineNo : Z) (st : State) b st' :
  loadFile_loop strtod fuel path lines lineNo true st = Ret (b, st') -> b = true.
Proof.
  revert lineNo st. induction lines as [|line lines IH]; intros lineNo st H;
    cbn [loadFile_loop] in H.
  - injection H as <- _. reflexivity.
  - destruct (parse strtod fuel line st) as [[[rv1 st1] l1]| |] eqn:E;
      cbn in H; try discriminate H.
    destruct (parse_returns_true _ _ _ _ _ _ E) as [-> _].
    exact (IH _ _ H).
Qed.

Lemma loadFile_result (fuel : nat) (path : string) (lines : list string)
    (st : State) b st' :
  loadFile strtod fuel path lines st = Ret (b, st') -> b = (0 <? length lines)%nat.
Proof.
  unfold loadFile. destruct lines as [|line lines].
  - cbn. intros H. injection H as <- _. reflexivity.
  - change (0 <? length (line :: lines))%nat with true.
    apply loadFile_loop_true.
Qed.

(** C1 on the line [: FOO BAR DUP].  After [: FOO] the interpreter is
    compiling [FOO]; evaluating the unknown word [BAR] returns [npos];
    [parse] nevertheless goes on to [DUP], which is appended to the
    pending definition, and returns [true]. *)
Theorem parse_ignores_npos :
  let st2 := set_newWord "FOO" (set_isCompiling true Privates) in
  let st3 := printf ("unrecognized word at compile time: 'BAR'" +:+ newline) st2 in
  parse strtod 3 ": FOO" Privates = Ret (true, st2, "")
  /\ eval strtod 1 "BAR" "DUP" st2 = Ret (npos, st3, "DUP")
  /\ parse strtod 5 ": FOO BAR DUP" Privates
     = Ret (true, set_newDefinition ["DUP"] st3, "").
Proof.
  intros st2 st3. split; [|split].
  - vm_compute. reflexivity.
  - cbn [eval]. unfold eval_body, compiletime_eval.
    vm_compute. reflexivity.
  - vm_compute. reflexivity.
Qed.

(** C4 on the word [/].  The dictionary built by the constructor has
    entries for [+], [-] and [*] but none for [/]: the division entry is
    listed under the key [*], which the multiplication entry already
    holds.  Evaluating [/] reports an unknown word. *)
Theorem divide_not_in_dictionary (fuel : nat) :
  is_Some (_runtimeDictionary Privates !! "+")
  /\ is_Some (_runtimeDictionary Privates !! "-")
  /\ _runtimeDictionary Privates !! "*"
     = Some (mkWord "Multiply (x y -- x*y)" [[P "x" st_number; P "y" st_number]] b_nop)
  /\ _runtimeDictionary Privates !! "/" = None
  /\ In ("*", mkWord "Divide (x y -- y/x)" [[P "x" st_number; P "y" st_number]] b_nop)
        runtime_words
  /\ eval strtod (S fuel) "/" "" Privates
     = Ret (0, printf ("not found '/' in dict" +:+ newline) Privates, "").
Proof.
  split; [vm_compute; eexists; reflexivity|].
  split; [vm_compute; eexists; reflexivity|].
  split; [vm_compute; reflexivity|].
  split; [vm_compute; reflexivity|].
  split; [unfold runtime_words; do 17 right; left; reflexivity|].
  cbn [eval]. vm_compute. reflexivity.
Qed.

End Lines.

(** * Closed instances *)

(** The tokenizer on a buffer with the delimiter and on one without. *)
Lemma nextWord_spec_witness :
  representable "ab cd e" /\ representable "abc"
  /\ nextWord "ab cd e" space = (2, "ab", "cd e")
  /\ nextWord "abc" space = (npos, "abc", "").
Proof.
  assert (Hrep : representable "ab cd e") by reflexivity.
  assert (Hrep' : representable "abc") by reflexivity.
  split; [exact Hrep|]. split; [exact Hrep'|]. split.
  - apply (proj1 (nextWord_spec "ab cd e" space Hrep) "ab" "cd e"); [reflexivity|].
    intros [H|[H|[]]]; discriminate H.
  - apply (proj2 (nextWord_spec "abc" space Hrep')).
    intros [H|[H|[H|[]]]]; discriminate H.
Defined.

(** [;] right after [:] becomes the name of the definition. *)
Lemma compile_adopts_name_witness :
  let st := set_isCompiling true Privates in
  _isCompiling st = true /\ _newWord st = ""
  /\ exists st', eval strtod_decimal 1 ";" "" st = Ret (0, st', "")
                 /\ _newWord st' = ";" /\ _isCompiling st' = true
                 /\ _newDefinition st' = [] /\ _stack st' = [].
Proof.
  intros st. split; [reflexivity|]. split; [reflexivity|].
  destruct (compile_adopts_name strtod_decimal 0 ";" "" st)
    as (_ & st' & He & Hn & Hc & Hd & _ & _ & Hs & _);
    [reflexivity|reflexivity|discriminate|].
  exists st'. split; [exact He|]. split; [exact Hn|]. split; [exact Hc|].
  split; [exact Hd|exact Hs].
Defined.



(** C3 at [STO] with an integer below a string: validation succeeds
    although the topmost value, a string, does not match the first type of
    the signature, [st_number]. *)
Lemma validate_not_top_down :
  let st := set_stack [v_integer 1; v_string "x"] Privates in
  let sig := [P "val" st_number; P "var" st_string] in
  _runtimeDictionary st !! "STO" = Some STO
  /\ w_params STO = [sig]
  /\ (validate_stack_for_word ("STO", STO) st).1 = true
  /\ peek 1 st = Some (v_string "x")
  /\ ¬ ((validate_stack_for_word ("STO", STO) st).1 = true <-> matches_top_down sig st).
Proof.
  intros st sig. split; [vm_compute; reflexivity|].
  split; [reflexivity|]. split; [reflexivity|]. split; [reflexivity|].
  intros [Hdir _].
  destruct (Hdir eq_refl) as [_ H].
  destruct (H 1%nat (P "val" st_number)) as (e & He & Hm); [cbn; lia|reflexivity|].
  vm_compute in He. injection He as <-. discriminate Hm.
Qed.

(** The signature of [STO] against an integer below a string. *)
Lemma validate_strict_signature_witness :
  let st := set_stack [v_integer 1; v_string "x"] Privates in
  let sig := [P "val" st_number; P "var" st_string] in
  w_params STO = [sig]
  /\ ((validate_stack_for_word ("STO", STO) st).1 = true <->
        (2 <= length (_stack st))%nat
        /\ (forall i pt, (1 <= i <= 2)%nat -> sig !! (i - 1)%nat = Some pt ->
              exists e, peek (2 + 1 - i) st = Some e /\ tag_matches (p_type pt) e = true)).
Proof.
  intros st sig. split; [reflexivity|].
  exact (proj1 (validate_strict_signature strtod_decimal "STO" STO sig st eq_refl)).
Defined.

(** The end of [: SQ2 DUP * ;]. *)
Lemma semicolon_installs_definition_witness :
  let st := set_newDefinition ["DUP"; "*"]
              (set_newWord "SQ2" (set_isCompiling true Privates)) in
  exists st',
    eval strtod_decimal 1 ";" "" st = Ret (0, st', "")
    /\ _runtimeDictionary st' !! "SQ2" = Some (mkWord "user SQ2" [] (b_user ["DUP"; "*"]))
    /\ _isCompiling st' = false /\ _newWord st' = "" /\ _newDefinition st' = [].
Proof.
  intros st.
  destruct (semicolon_installs_definition strtod_decimal 0 "" st
              (mkWord "End Definition" [[]] b_semicolon))
    as (st' & He & _ & Hl & _ & Hc & Hn & Hd & _);
    [reflexivity|discriminate|vm_compute; reflexivity|reflexivity|].
  exists st'. repeat split; assumption.
Defined.

(** The literals [0x1F] and [12.32]. *)
Lemma numeric_literal_pushed_witness :
  (exists st', eval libc_strtod 1 "0x1F" "" Privates = Ret (0, st', "")
               /\ _stack st' = [v_integer 31])
  /\ (exists st', eval libc_strtod 1 "12.32" "" Privates = Ret (0, st', "")
                  /\ _stack st' = [v_double (S754_finite false 6935543426150564 (-49))]).
Proof.
  split.
  - destruct (numeric_literal_pushed 0 "0x1F" "" Privates eq_refl eq_refl eq_refl)
      as (st' & He & _ & _ & _ & _ & _ & _ & _ & Hi & _).
    exists st'. split; [exact He|].
    apply Hi. intros [H|[H|[H|[H|[]]]]]; discriminate H.
  - destruct (numeric_literal_pushed 0 "12.32" "" Privates eq_refl eq_refl eq_refl)
      as (st' & He & _ & _ & _ & _ & _ & _ & Hf & _).
    exists st'. split; [exact He|].
    apply Hf. right. right. left. reflexivity.
Defined.

(** C6 at [0x1.8].  The word starts with a digit and contains a '.'; what
    is pushed is 1.5, the hexadecimal literal, and not 0, which is what
    its decimal digits denote. *)
Lemma hexadecimal_literal_pushed :
  isdigit (first_byte "0x1.8") = true /\ occurs dot "0x1.8"
  /\ exists st',
      eval libc_strtod 1 "0x1.8" "" Privates = Ret (0, st', "")
      /\ _stack st' = [v_double (S754_finite false 6755399441055744 (-52))]
      /\ decimal_float false (c_str "0x1.8") = Some (S754_zero false)
      /\ ¬ pushes_decimal_reading "0x1.8" Privates st'.
Proof.
  split; [reflexivity|]. split; [right; right; right; left; reflexivity|].
  eexists. split; [vm_compute; reflexivity|].
  split; [reflexivity|]. split; [vm_compute; reflexivity|].
  intros (d & Hd & Hs). vm_compute in Hd. injection Hd as <-.
  vm_compute in Hs. discriminate Hs.
Qed.

(** * Further properties *)

(** ** Tokenizer *)

Lemma nextWord_found (pre post : string) (delim : ascii) :
  representable (pre +:+ String delim post) -> ¬ occurs delim pre ->
  nextWord (pre +:+ String delim post) delim = (size pre, pre, post).
Proof.
  intros Hrep Hpre. unfold nextWord, find.
  rewrite find_from_first by exact Hpre.
  unfold representable in Hrep. rewrite size_app, size_String in Hrep.
  pose proof (size_nonneg pre) as Hp. pose proof (size_nonneg post) as Hq.
  destruct (Z.eqb_spec (0 + size pre) npos) as [E|_]; [lia|].
  unfold substr. rewrite size_app, size_String.
  replace (Z.to_nat 0) with O by reflexivity.
  replace (Z.to_nat (Z.min (0 + size pre) (size pre + (size post + 1) - 0)))
    with (String.length pre) by (unfold size in *; lia).
  replace (Z.to_nat (0 + size pre + 1)) with (S (String.length pre))
    by (unfold size in *; lia).
  replace (Z.to_nat (Z.min npos (size pre + (size post + 1) - (0 + size pre + 1))))
    with (String.length post) by (unfold size in *; lia).
  rewrite substring_prefix, substring_suffix. reflexivity.
Qed.

Lemma nextWord_absent (buffer : string) (delim : ascii) :
  ¬ occurs delim buffer -> nextWord buffer delim = (npos, buffer, "").
Proof.
  intros Habs. unfold nextWord, find.
  rewrite find_from_absent by exact Habs. reflexivity.
Qed.

(** A string either lacks a character or splits at its first occurrence. *)
Lemma first_occurrence (c : ascii) (s : string) :
  ¬ occurs c s
  \/ exists pre post, s = pre +:+ String c post /\ ¬ occurs c pre.
Proof.
  induction s as [|a s IH].
  - left. intros [].
  - destruct (Ascii.eqb_spec a c) as [->|Hne].
    + right. exists "", s. split; [reflexivity|]. intros [].
    + destruct IH as [Habs|(pre & post & -> & Hpre)].
      * left. intros [E|Hin]; [congruence|]. exact (Habs Hin).
      * right. exists (String a pre), post. split; [reflexivity|].
        intros [E|Hin]; [congruence|]. exact (Hpre Hin).
Qed.

Lemma nextWord_cases (buffer : string) (delim : ascii) :
  representable buffer ->
  (¬ occurs delim buffer /\ nextWord buffer delim = (npos, buffer, ""))
  \/ (exists pre post,
        buffer = pre +:+ String delim post /\ ¬ occurs delim pre
        /\ size pre < npos
        /\ nextWord buffer delim = (size pre, pre, post)).
Proof.
  intros Hrep.
  destruct (first_occurrence delim buffer) as [Habs|(pre & post & E & Hpre)].
  - left. split; [exact Habs|]. apply nextWord_absent. exact Habs.
  - right. exists pre, post. subst buffer. repeat split; try assumption.
    + unfold representable in Hrep. rewrite size_app, size_String in Hrep.
      pose proof (size_nonneg post). lia.
    + apply nextWord_found; assumption.
Qed.

(** X1. Whatever the buffer, the word [nextWord] extracts never contains
    the delimiter; when a position is returned, word, delimiter and
    remaining buffer put together give back the buffer and the position
    is the length of the word; when [npos] is returned the word is the
    buffer and nothing remains. *)
Theorem nextWord_reassembles (buffer : string) (delim : ascii) p word remaining :
  representable buffer ->
  nextWord buffer delim = (p, word, remaining) ->
  ¬ occurs delim word
  /\ (p = npos -> word = buffer /\ remaining = "")
  /\ (p <> npos -> buffer = word +:+ String delim remaining /\ p = size word).
Proof.
  intros Hrep H.
  destruct (nextWord_cases buffer delim Hrep)
    as [[Habs E]|(pre & post & Eb & Hpre & Hlt & E)];
    rewrite E in H; injection H as <- <- <-.
  - split; [exact Habs|]. split; [intros _; split; reflexivity|]. intros Hn. contradiction.
  - split; [exact Hpre|]. split; [intros Hn; lia|]. intros _. split; [exact Eb|reflexivity].
Qed.

(** ** Validator with several alternatives *)

Lemma alternative_matches_same (p : list param_t) (st st' : State) :
  _stack st' = _stack st -> alternative_matches p st -> alternative_matches p st'.
Proof.
  unfold alternative_matches, peek. intros ->. exact (fun H => H).
Qed.

Lemma pred_loop_alternative (p : list param_t) (st : State) :
  (length p <= length (_stack st))%nat ->
  pred_loop p (top_types_loop (_stack st) (length p) (length p - 1)) = true
  <-> alternative_matches p st.
Proof.
  intros Hge. set (k := length p) in *.
  destruct (Nat.eq_dec k 0%nat) as [E0|E0].
  - assert (p = []) as -> by (destruct p; [reflexivity|discriminate E0]).
    split; [|reflexivity]. intros _. split; [exact Hge|]. intros i pt Hi. cbn in Hi. lia.
  - rewrite pred_loop_true by (rewrite top_types_loop_length; [reflexivity|lia|lia]).
    split.
    + intros H. split; [exact Hge|]. fold k. intros i pt Hi Hs.
      destruct (lookup_lt_is_Some_2 (rev (_stack st)) (k + 1 - i - 1)) as [e He];
        [rewrite length_rev; lia|].
      exists e. unfold peek. split; [exact He|].
      rewrite <- datatype_eq_index.
      apply (H (i - 1)%nat pt (index e) Hs).
      rewrite top_types_loop_lookup by lia.
      replace (k - 1 - (i - 1))%nat with (k + 1 - i - 1)%nat by lia.
      rewrite He. reflexivity.
    + intros [_ H] j pt t Hs Ht. fold k in H.
      assert (Hj : (j < k)%nat) by (apply lookup_lt_Some in Hs; exact Hs).
      rewrite top_types_loop_lookup in Ht by lia.
      destruct (H (S j) pt) as (e & He & Hm); [lia| |].
      { replace (S j - 1)%nat with j by lia. exact Hs. }
      unfold peek in He.
      replace (k + 1 - S j - 1)%nat with (k - 1 - j)%nat in He by lia.
      rewrite He in Ht. injection Ht as <-.
      rewrite datatype_eq_index. exact Hm.
Qed.

Lemma validate_loop_true (ps : list (list param_t)) (st : State) :
  validate_loop ps true st = (true, st).
Proof. destruct ps; reflexivity. Qed.

Lemma validate_loop_false (ps : list (list param_t)) (st : State) :
  (validate_loop ps false st).1 = true
  <-> exists p, In p ps /\ p <> [] /\ alternative_matches p st.
Proof.
  revert st. induction ps as [|p ps IH]; intros st; cbn [validate_loop].
  - split; [discriminate|]. intros (p & [] & _).
  - unfold top_of_stack_types.
    destruct (Nat.ltb_spec (length (_stack st)) (length p)) as [Hlt|Hge].
    + cbn [length Nat.eqb]. rewrite IH. split.
      * intros (q & Hin & Hq & Hm). exists q. split; [right; exact Hin|].
        split; [exact Hq|]. exact (alternative_matches_same q _ st eq_refl Hm).
      * intros (q & [<-|Hin] & Hq & Hm).
        -- destruct Hm as [Hm _]. lia.
        -- exists q. split; [exact Hin|]. split; [exact Hq|].
           exact (alternative_matches_same q st _ eq_refl Hm).
    + destruct (Nat.eq_dec (length p) 0%nat) as [E0|E0].
      * assert (p = []) as -> by (destruct p; [reflexivity|discriminate E0]).
        cbn [length top_types_loop Nat.eqb]. rewrite IH. split.
        -- intros (q & Hin & Hq & Hm). exists q. split; [right; exact Hin|]. split; assumption.
        -- intros (q & [<-|Hin] & Hq & Hm); [contradiction|].
           exists q. split; [exact Hin|]. split; assumption.
      * rewrite top_types_loop_length by lia.
        destruct (Nat.eqb_spec (length p) 0) as [|_]; [contradiction|].
        destruct (pred_loop p (top_types_loop (_stack st) (length p) (length p - 1))) eqn:Ep.
        -- rewrite validate_loop_true. split; [|reflexivity]. intros _.
           exists p. split; [left; reflexivity|]. split.
           ++ intros ->. apply E0. reflexivity.
           ++ apply pred_loop_alternative; assumption.
        -- rewrite IH. split.
           ++ intros (q & Hin & Hq & Hm). exists q. split; [right; exact Hin|].
              split; assumption.
           ++ intros (q & [<-|Hin] & Hq & Hm).
              ** apply pred_loop_alternative in Hm; [congruence|exact Hge].
              ** exists q. split; [exact Hin|]. split; assumption.
Qed.

Lemma validate_characterised (de : string * word_t) (st : State) :
  (validate_stack_for_word de st).1 = true
  <-> w_params de.2 = [] \/ w_params de.2 = [[]]
      \/ exists p, In p (w_params de.2) /\ p <> [] /\ alternative_matches p st.
Proof.
  unfold validate_stack_for_word. cbn [snd].
  destruct (w_params de.2) as [|p0 [|p1 ps]] eqn:Eps.
  - cbn. split; [intros _; left; reflexivity|reflexivity].
  - destruct p0 as [|x p0].
    + cbn. split; [intros _; right; left; reflexivity|reflexivity].
    + change ((length [x :: p0] =? 0)%nat || (length [x :: p0] =? 1)%nat
              && (length (nth 0 [x :: p0] []) =? 0)%nat) with false.
      rewrite validate_loop_false. split.
      * intros H. right. right. exact H.
      * intros [H|[H|H]]; [discriminate H|discriminate H|exact H].
  - change ((length (p0 :: p1 :: ps) =? 0)%nat || (length (p0 :: p1 :: ps) =? 1)%nat
            && (length (nth 0 (p0 :: p1 :: ps) []) =? 0)%nat) with false.
    rewrite validate_loop_false. split.
    + intros H. right. right. exact H.
    + intros [H|[H|H]]; [discriminate H|discriminate H|exact H].
Qed.

(** X2. A word is accepted exactly when it declares no parameters at all
    (no alternative, or the empty alternative alone) or when one of its
    non-empty alternatives matches the stack, each alternative being read
    deepest value first; an empty alternative listed beside others never
    counts.  Validating changes nothing of the interpreter but the
    console. *)
Theorem validate_any_alternative (name : string) (w : word_t) (st : State) :
  ((validate_stack_for_word (name, w) st).1 = true
   <-> w_params w = [] \/ w_params w = [[]]
       \/ exists p, In p (w_params w) /\ p <> [] /\ alternative_matches p st)
  /\ same_interpreter st (validate_stack_for_word (name, w) st).2.
Proof.
  split.
  - exact (validate_characterised (name, w) st).
  - apply validate_same.
Qed.

Section Rejection.

Variable strtod : string -> double.

Lemma runtime_eval_known (fuel : nat) (name rest : string) (st : State) (w : word_t) :
  _isCompiling st = false -> name <> "" -> isdigit (first_byte name) = false ->
  _runtimeDictionary st !! name = Some w ->
  eval strtod (S fuel) name rest st
  = let '(ok, st1) := validate_stack_for_word (name, w) st in
    if ok then call (eval strtod fuel) (w_eval w) name rest st1
    else Ret (0, printf (c_str (to_string_word name w))
                   (print_stack
                      (printf ("parameters not right for '" +:+ c_str name
                               +:+ "'" +:+ newline) st1)), rest).
Proof.
  intros Hc Hn Hd Hl. cbn [eval]. unfold eval_body, runtime_eval.
  rewrite size_pos by exact Hn. rewrite Hc, Hd, Hl. reflexivity.
Qed.

(** X3. In runtime mode a known word that the validator rejects is not
    run: the evaluation returns 0, leaves the rest of the line alone and
    changes nothing of the interpreter but the console. *)
Theorem rejected_word_changes_nothing
    (fuel : nat) (name rest : string) (st : State) (w : word_t) :
  _isCompiling st = false -> name <> "" -> isdigit (first_byte name) = false ->
  _runtimeDictionary st !! name = Some w ->
  (validate_stack_for_word (name, w) st).1 = false ->
  exists st', eval strtod (S fuel) name rest st = Ret (0, st', rest)
              /\ same_interpreter st st'.
Proof.
  intros Hc Hn Hd Hl Hv.
  rewrite (runtime_eval_known fuel name rest st w Hc Hn Hd Hl).
  pose proof (validate_same (name, w) st) as Hs.
  destruct (validate_stack_for_word (name, w) st) as [ok st1]. cbn [fst snd] in *.
  subst ok. eexists. split; [reflexivity|].
  eapply same_interpreter_trans; [exact Hs|].
  eapply same_interpreter_trans; [apply printf_same|].
  eapply same_interpreter_trans; [apply print_stack_same|apply printf_same].
Qed.

End Rejection.

(** ** Well-formed interpreters *)

Lemma well_formed_fields (st st' : State) :
  _runtimeDictionary st' = _runtimeDictionary st ->
  _compiletimeDictionary st' = _compiletimeDictionary st ->
  _isCompiling st' = _isCompiling st ->
  _newWord st' = _newWord st ->
  _newDefinition st' = _newDefinition st ->
  well_formed st -> well_formed st'.
Proof.
  unfold well_formed, compile_state_ok. intros -> -> -> -> ->. exact (fun H => H).
Qed.

Lemma well_formed_same (st st' : State) :
  same_interpreter st st' -> well_formed st -> well_formed st'.
Proof.
  intros (H1 & H2 & H3 & H4 & H5 & _). apply well_formed_fields; assumption.
Qed.

Lemma well_formed_set_stack (s : list stacktype_t) (st : State) :
  well_formed st -> well_formed (set_stack s st).
Proof. apply well_formed_fields; reflexivity. Qed.

Lemma well_formed_printf (s : string) (st : State) :
  well_formed st -> well_formed (printf s st).
Proof. apply well_formed_fields; reflexivity. Qed.

Lemma validate_nonempty_stack (de : string * word_t) (st : State) :
  w_params de.2 <> [] -> Forall (fun p => p <> []) (w_params de.2) ->
  (validate_stack_for_word de st).1 = true -> _stack st <> [].
Proof.
  intros Hne Hall Hv. apply validate_characterised in Hv.
  destruct Hv as [E|[E|(p & Hin & Hp & Hlen & _)]].
  - contradiction.
  - rewrite E in Hall. inversion Hall as [|? ? Hx _]. contradiction.
  - intros Es. rewrite Es in Hlen. destruct p; [contradiction|]. cbn in Hlen. lia.
Qed.

Lemma back_nonempty (stk : list stacktype_t) : stk <> [] -> exists v, back stk = Some v.
Proof.
  intros H. destruct (exists_last H) as (l & v & ->). exists v. apply back_push.
Qed.

Lemma user_eval_loop_safe (ev : eval_t) (wl : list string) (st : State) :
  safe_evaluator ev -> well_formed st ->
  match user_eval_loop ev wl st with
  | Ret st' => well_formed st'
  | Undefined => False
  | OutOfFuel => True
  end.
Proof.
  intros Hev. revert st. induction wl as [|w ws IH]; intros st Hwf; cbn [user_eval_loop].
  - exact Hwf.
  - specialize (Hev w "" st Hwf).
    destruct (ev w "" st) as [[[rv s1] r1]| |]; cbn; [|exact Hev|exact I].
    apply IH. exact Hev.
Qed.

(** The body of a runtime word, called after the validator accepted it. *)
Lemma call_runtime_safe (ev : eval_t) (w : word_t) (word rest : string) (st : State) :
  safe_evaluator ev -> well_formed st -> _isCompiling st = false ->
  runtime_word_ok w ->
  (needs_stack (w_eval w) = true -> _stack st <> []) ->
  match call ev (w_eval w) word rest st with
  | Ret (_, st', _) => well_formed st'
  | Undefined => False
  | OutOfFuel => True
  end.
Proof.
  intros Hev Hwf Hc [Hns _] Hstk.
  destruct (w_eval w) eqn:Eb; cbn [call needs_stack] in *.
  - exact Hwf.
  - revert Hwf. apply well_formed_fields; reflexivity.
  - destruct (nextWord rest quote) as [[p lit] r1].
    destruct (negb (p =? npos)).
    + apply well_formed_set_stack. exact Hwf.
    + apply well_formed_printf. exact Hwf.
  - unfold parse_comment. destruct (nextWord rest rparen) as [[p c] r1].
    destruct (negb (p =? npos)); [exact Hwf|apply well_formed_printf; exact Hwf].
  - destruct Hwf as (Hr & Hd & Hs1 & Hs2).
    split; [exact Hr|]. split; [exact Hd|]. split; cbn.
    + intros H. discriminate H.
    + intros _. exact (proj2 (Hs1 Hc)).
  - destruct (back_nonempty _ (Hstk eq_refl)) as [v ->]. cbn.
    apply well_formed_set_stack. exact Hwf.
  - unfold stack_pop. destruct (back_nonempty _ (Hstk eq_refl)) as [v ->]. cbn.
    apply well_formed_set_stack. exact Hwf.
  - unfold stack_pop_as_double, stack_pop.
    destruct (back_nonempty _ (Hstk eq_refl)) as [v ->]. cbn.
    apply well_formed_set_stack. apply well_formed_set_stack. exact Hwf.
  - unfold stack_pop_as_double, stack_pop.
    destruct (back_nonempty _ (Hstk eq_refl)) as [v ->]. cbn.
    apply well_formed_set_stack. apply well_formed_set_stack. exact Hwf.
  - unfold stack_pop_as_double, stack_pop.
    destruct (back_nonempty _ (Hstk eq_refl)) as [v ->]. cbn.
    apply well_formed_set_stack. apply well_formed_set_stack. exact Hwf.
  - contradiction.
  - unfold user_eval.
    pose proof (user_eval_loop_safe ev wl st Hev Hwf) as H.
    destruct (user_eval_loop ev wl st); cbn; assumption.
Qed.

(** The end of a definition. *)
Lemma semicolon_well_formed (st : State) :
  well_formed st ->
  well_formed
    (set_newDefinition []
       (set_newWord ""
          (set_isCompiling false
             (set_runtimeDictionary
                (<[_newWord st := mkWord ("user " +:+ _newWord st) [] (b_user (_newDefinition st))]>
                   (_runtimeDictionary st)) st)))).
Proof.
  intros (Hr & Hd & _).
  split; [|split; [|split]]; cbn.
  - intros name w H.
    apply lookup_insert_Some in H as [[_ <-]|[_ H]].
    + split; [discriminate|]. intros Hn. discriminate Hn.
    + exact (Hr _ _ H).
  - exact Hd.
  - intros _. split; reflexivity.
  - intros _. reflexivity.
Qed.

Section Safety.

Variable strtod : string -> double.

Lemma eval_body_safe (ev : eval_t) :
  safe_evaluator ev -> safe_evaluator (eval_body strtod ev).
Proof.
  intros Hev word rest st Hwf. unfold eval_body.
  rewrite size_pos_iff. destruct (String.eqb_spec word "") as [->|Hw]; cbn [negb]; [exact Hwf|].
  destruct (_isCompiling st) eqn:Hc.
  - unfold compiletime_eval.
    destruct (String.eqb_spec (_newWord st) "") as [En|En].
    + destruct Hwf as (Hr & Hd & Hs1 & Hs2).
      split; [exact Hr|]. split; [exact Hd|]. split; cbn.
      * intros H. rewrite Hc in H. discriminate H.
      * intros H. contradiction.
    + destruct (_compiletimeDictionary st !! word) as [cw|] eqn:El.
      * destruct (proj1 (proj2 Hwf) _ _ El) as [Eb|Eb]; rewrite Eb; cbn [call].
        -- apply semicolon_well_formed. exact Hwf.
        -- unfold parse_comment. destruct (nextWord rest rparen) as [[p c] r1].
           destruct (negb (p =? npos)); [exact Hwf|apply well_formed_printf; exact Hwf].
      * assert (Happ : well_formed (set_newDefinition (_newDefinition st ++ [word]) st)).
        { destruct Hwf as (Hr & Hd & Hs1 & Hs2).
          split; [exact Hr|]. split; [exact Hd|]. split; cbn.
          - intros H. rewrite Hc in H. discriminate H.
          - intros H. contradiction. }
        destruct (isdigit (first_byte word)); [exact Happ|].
        destruct (_runtimeDictionary st !! word); [exact Happ|].
        apply well_formed_printf. exact Hwf.
  - unfold runtime_eval.
    destruct (isdigit (first_byte word)).
    + destruct (negb (find word dot =? npos)); apply well_formed_set_stack; exact Hwf.
    + destruct (_runtimeDictionary st !! word) as [we|] eqn:El;
        [|apply well_formed_printf; exact Hwf].
      pose proof (validate_same (word, we) st) as Hs.
      pose proof (validate_nonempty_stack (word, we) st) as Hne.
      destruct (validate_stack_for_word (word, we) st) as [ok st1]. cbn [fst snd] in *.
      pose proof (well_formed_same st st1 Hs Hwf) as Hwf1.
      pose proof (proj1 Hwf _ _ El) as Hok.
      destruct ok.
      * apply call_runtime_safe; try assumption.
        -- destruct Hs as (_ & _ & -> & _). exact Hc.
        -- intros Hn. destruct (proj2 Hok Hn) as [Hp Hall].
           destruct Hs as (_ & _ & _ & _ & _ & ->). apply Hne; [exact Hp|exact Hall|reflexivity].
      * apply well_formed_printf. revert Hwf1. apply well_formed_fields; reflexivity.
Qed.

Lemma eval_safe (fuel : nat) : safe_evaluator (eval strtod fuel).
Proof.
  induction fuel as [|fuel IH].
  - intros word rest st _. exact I.
  - cbn [eval]. apply eval_body_safe. exact IH.
Qed.

Lemma parse_safe (fuel : nat) (line : string) (st : State) :
  well_formed st ->
  match parse strtod fuel line st with
  | Ret (_, st', _) => well_formed st'
  | Undefined => False
  | OutOfFuel => True
  end.
Proof.
  revert line st. induction fuel as [|fuel IH]; intros line st Hwf; [exact I|].
  cbn [parse]. destruct (0 <? size line); [|exact Hwf].
  destruct (nextWord line space) as [[p1 word] line1].
  pose proof (eval_safe fuel word line1 st Hwf) as He.
  destruct (eval strtod fuel word line1 st) as [[[s st1] line2]| |]; cbn;
    [|exact He|exact I].
  apply IH. exact He.
Qed.

End Safety.

(** ** The interpreters reached from a new one *)

Lemma map_of_initializer_list_Forall (Q : word_t -> Prop) (l : list (string * word_t)) :
  Forall (fun kv => Q kv.2) l ->
  forall k w, map_of_initializer_list l !! k = Some w -> Q w.
Proof.
  unfold map_of_initializer_list.
  assert (G : forall (m : gmap string word_t),
             (forall k w, m !! k = Some w -> Q w) ->
             Forall (fun kv => Q kv.2) l ->
             forall k w,
               foldl (fun m kv => match m !! kv.1 with
                                  | Some _ => m
                                  | None => <[kv.1 := kv.2]> m
                                  end) m l !! k = Some w -> Q w).
  { induction l as [|kv l IH]; intros m Hm Hall k w; cbn [foldl].
    - apply Hm.
    - inversion Hall as [|? ? Hkv Hl]; subst. apply IH; [|exact Hl].
      intros k' w' H'. destruct (m !! kv.1) eqn:E; [exact (Hm _ _ H')|].
      apply lookup_insert_Some in H' as [[_ <-]|[_ H']]; [exact Hkv|exact (Hm _ _ H')]. }
  intros Hall. apply G; [|exact Hall].
  intros k w H. rewrite lookup_empty in H. discriminate H.
Qed.

Lemma runtime_words_ok : Forall (fun kv => runtime_word_ok kv.2) runtime_words.
Proof.
  unfold runtime_words.
  repeat (apply List.Forall_cons;
          [split; cbn;
           [discriminate
           |intros Hn;
            first [discriminate Hn
                  |split; [discriminate|repeat constructor; discriminate]]]|]).
  apply List.Forall_nil.
Qed.

Lemma compiletime_words_ok : Forall (fun kv => compiletime_word_ok kv.2) compiletime_words.
Proof.
  unfold compiletime_words.
  apply List.Forall_cons; [left; reflexivity|].
  apply List.Forall_cons; [right; reflexivity|].
  apply List.Forall_nil.
Qed.

Lemma well_formed_Privates : well_formed Privates.
Proof.
  split; [|split; [|split]].
  - exact (map_of_initializer_list_Forall _ _ runtime_words_ok).
  - exact (map_of_initializer_list_Forall _ _ compiletime_words_ok).
  - intros _. split; reflexivity.
  - intros _. reflexivity.
Qed.

Section Reached.

Variable strtod : string -> double.

Lemma reachable_well_formed (st : State) : reachable strtod st -> well_formed st.
Proof.
  induction 1 as [|fuel line st b st' line' _ IH Hp].
  - exact well_formed_Privates.
  - pose proof (parse_safe strtod fuel line st IH) as H. rewrite Hp in H. exact H.
Qed.

(** X4. In every interpreter reached from a new one by lines of input,
    whatever they contain, the compilation state is consistent: outside a
    definition there is no pending name and no captured token, and inside
    one no token is captured before the name is known. *)
Theorem compile_state_lifecycle (st : State) :
  reachable strtod st ->
  (_isCompiling st = false -> _newWord st = "" /\ _newDefinition st = [])
  /\ (_newWord st = "" -> _newDefinition st = []).
Proof.
  intros H. exact (proj2 (proj2 (reachable_well_formed st H))).
Qed.

(** X5. In every interpreter reached from a new one, no evaluation of a
    word and no line ever reads or removes the top of an empty stack: the
    words that do so ([DUP], [DROP], the [->{X}] family) are only run after
    the validator found a value, and user words and redefinitions keep it
    so. *)
Theorem no_read_of_empty_stack (st : State) (fuel : nat) :
  reachable strtod st ->
  (forall word rest, eval strtod fuel word rest st <> Undefined)
  /\ (forall line, parse strtod fuel line st <> Undefined).
Proof.
  intros H. pose proof (reachable_well_formed st H) as Hwf. split.
  - intros word rest E. pose proof (eval_safe strtod fuel word rest st Hwf) as Hs.
    rewrite E in Hs. exact Hs.
  - intros line E. pose proof (parse_safe strtod fuel line st Hwf) as Hs.
    rewrite E in Hs. exact Hs.
Qed.

Lemma compile_mode_step (fuel : nat) (word rest : string) (st : State) :
  well_formed st -> _isCompiling st = true ->
  exists rv st' rest',
    eval strtod (S fuel) word rest st = Ret (rv, st', rest')
    /\ _stack st' = _stack st.
Proof.
  intros Hwf Hc. cbn [eval]. unfold eval_body.
  destruct (0 <? size word); [|eexists _, _, _; split; reflexivity].
  rewrite Hc. unfold compiletime_eval.
  destruct (String.eqb (_newWord st) ""); [eexists _, _, _; split; reflexivity|].
  destruct (_compiletimeDictionary st !! word) as [cw|] eqn:El.
  - destruct (proj1 (proj2 Hwf) _ _ El) as [Eb|Eb]; rewrite Eb; cbn [call].
    + eexists _, _, _; split; reflexivity.
    + unfold parse_comment. destruct (nextWord rest rparen) as [[p c] r1].
      destruct (negb (p =? npos)); eexists _, _, _; split; reflexivity.
  - destruct (isdigit (first_byte word)); [eexists _, _, _; split; reflexivity|].
    destruct (_runtimeDictionary st !! word); eexists _, _, _; split; reflexivity.
Qed.

(** X6. While a definition is being compiled nothing is executed: in
    every interpreter reached from a new one that is in compile mode,
    the evaluation of any word returns at once (it needs no nested
    evaluation) and leaves the stack as it was. *)
Theorem compile_mode_keeps_stack (fuel : nat) (word rest : string) (st : State) :
  reachable strtod st -> _isCompiling st = true ->
  exists rv st' rest',
    eval strtod (S fuel) word rest st = Ret (rv, st', rest')
    /\ _stack st' = _stack st.
Proof.
  intros H Hc. apply compile_mode_step; [|exact Hc].
  apply reachable_well_formed. exact H.
Qed.

End Reached.

(** ** What an evaluation can move *)

Lemma advances_refl (st : State) : advances st st.
Proof. split; [exists []; symmetry; apply app_nil_r|exact (fun k H => H)]. Qed.

Lemma advances_trans (a b c : State) : advances a b -> advances b c -> advances a c.
Proof.
  intros [[o1 H1] K1] [[o2 H2] K2]. split.
  - exists (o1 ++ o2)%list. rewrite H2, H1. symmetry. apply app_assoc.
  - intros k H. exact (K2 k (K1 k H)).
Qed.

Lemma advances_fields (st st' : State) (out : list output) :
  _runtimeDictionary st' = _runtimeDictionary st ->
  console st' = (console st ++ out)%list -> advances st st'.
Proof.
  intros Hd Hc. split; [exists out; exact Hc|]. intros k H. rewrite Hd. exact H.
Qed.

Lemma advances_printf (s : string) (st : State) : advances st (printf s st).
Proof. exact (advances_fields st (printf s st) [out_text s] eq_refl eq_refl). Qed.

Lemma advances_print_stack (st : State) : advances st (print_stack st).
Proof. exact (advances_fields st (print_stack st) [out_stack (_stack st)] eq_refl eq_refl). Qed.

Lemma advances_set_stack (stk : list stacktype_t) (st : State) :
  advances st (set_stack stk st).
Proof.
  apply (advances_fields st (set_stack stk st) []); [reflexivity|].
  symmetry. apply app_nil_r.
Qed.

Lemma advances_validate (de : string * word_t) (st : State) :
  advances st (validate_stack_for_word de st).2.
Proof.
  unfold validate_stack_for_word.
  generalize ((length (w_params de.2) =? 0)%nat
              || (length (w_params de.2) =? 1)%nat
                 && (length (nth 0 (w_params de.2) []) =? 0)%nat).
  generalize (w_params de.2). intros ps. revert st.
  induction ps as [|p ps IH]; intros st rv; cbn [validate_loop].
  - apply advances_refl.
  - destruct rv; [apply advances_refl|].
    unfold top_of_stack_types.
    destruct (length (_stack st) <? length p)%nat.
    + eapply advances_trans; [apply advances_printf|apply IH].
    + apply IH.
Qed.

Lemma rest_of_refl (r : string) : rest_of r r.
Proof. exists "". reflexivity. Qed.

Lemma append_assoc (a b c : string) : (a +:+ b) +:+ c = a +:+ (b +:+ c).
Proof.
  induction a as [|x a IH]; rewrite ?append_nil, ?append_String; [reflexivity|].
  now rewrite IH.
Qed.

Lemma rest_of_trans (a b c : string) : rest_of a b -> rest_of b c -> rest_of a c.
Proof.
  intros [p1 ->] [p2 ->]. exists (p1 +:+ p2). symmetry. apply append_assoc.
Qed.

Lemma rest_of_nil (r : string) : rest_of "" r -> r = "".
Proof.
  intros [pre H]. destruct pre as [|a pre]; [|discriminate H].
  rewrite append_nil in H. symmetry. exact H.
Qed.

Lemma rest_of_representable (r r' : string) :
  rest_of r r' -> representable r -> representable r'.
Proof.
  intros [pre ->]. unfold representable. rewrite size_app.
  pose proof (size_nonneg pre). lia.
Qed.

Lemma nextWord_rest_of (buffer : string) (delim : ascii) :
  representable buffer -> rest_of buffer (nextWord buffer delim).2.
Proof.
  intros Hrep.
  destruct (nextWord_cases buffer delim Hrep) as [[_ E]|(pre & post & Eb & _ & _ & E)];
    rewrite E; cbn [snd].
  - exists buffer. clear. induction buffer as [|a b IH]; [reflexivity|].
    rewrite append_String, <- IH. reflexivity.
  - exists (pre +:+ String delim ""). rewrite Eb, append_assoc. reflexivity.
Qed.

Lemma representable_nil : representable "".
Proof. reflexivity. Qed.

Lemma user_eval_loop_advances (ev : eval_t) (wl : list string) (st st' : State) :
  forward_evaluator ev ->
  user_eval_loop ev wl st = Ret st' -> advances st st'.
Proof.
  intros Hev. revert st. induction wl as [|w ws IH]; intros st H; cbn [user_eval_loop] in H.
  - injection H as <-. apply advances_refl.
  - destruct (ev w "" st) as [[[rv s1] r1]| |] eqn:E; cbn in H; try discriminate H.
    destruct (Hev _ _ _ _ _ _ representable_nil E) as [_ Ha].
    eapply advances_trans; [exact Ha|exact (IH _ H)].
Qed.

Lemma stack_pop_advances (st st' : State) (v : stacktype_t) :
  stack_pop st = Some (v, st') -> advances st st'.
Proof.
  unfold stack_pop. destruct (back (_stack st)); [|discriminate].
  intros H. injection H as _ <-. apply advances_set_stack.
Qed.

Lemma stack_pop_as_double_advances (st st' : State) (d : double) :
  stack_pop_as_double st = Some (d, st') -> advances st st'.
Proof.
  unfold stack_pop_as_double. destruct (stack_pop st) as [[v s1]|] eqn:E; [|discriminate].
  intros H. injection H as _ <-. exact (stack_pop_advances _ _ _ E).
Qed.

Lemma call_forward (ev : eval_t) (b : body_t) :
  forward_evaluator ev -> forward_evaluator (call ev b).
Proof.
  intros Hev word rest st rv st' rest' Hrep H.
  destruct b; cbn [call] in H.
  - injection H as _ <- <-. split; [apply rest_of_refl|apply advances_refl].
  - injection H as _ <- <-. split; [apply rest_of_refl|].
    exact (advances_fields st (print_stack st) [out_stack (_stack st)] eq_refl eq_refl).
  - pose proof (nextWord_rest_of rest quote Hrep) as Hr.
    destruct (nextWord rest quote) as [[p lit] r1]. cbn [snd] in Hr.
    destruct (negb (p =? npos)); injection H as _ <- <-; (split; [exact Hr|]).
    + apply advances_set_stack.
    + apply advances_printf.
  - unfold parse_comment in H.
    pose proof (nextWord_rest_of rest rparen Hrep) as Hr.
    destruct (nextWord rest rparen) as [[p c] r1]. cbn [snd] in Hr.
    destruct (negb (p =? npos)); injection H as _ <- <-; (split; [exact Hr|]).
    + apply advances_refl.
    + apply advances_printf.
  - injection H as _ <- <-. split; [apply rest_of_refl|].
    apply (advances_fields st (set_isCompiling true st) []); [reflexivity|].
    symmetry. apply app_nil_r.
  - destruct (back (_stack st)); cbn in H; [|discriminate H].
    injection H as _ <- <-. split; [apply rest_of_refl|apply advances_set_stack].
  - destruct (stack_pop st) as [[v s1]|] eqn:E; cbn in H; [|discriminate H].
    injection H as _ <- <-. split; [apply rest_of_refl|exact (stack_pop_advances _ _ _ E)].
  - destruct (stack_pop_as_double st) as [[v s1]|] eqn:E; cbn in H; [|discriminate H].
    injection H as _ <- <-. split; [apply rest_of_refl|].
    eapply advances_trans; [exact (stack_pop_as_double_advances _ _ _ E)|].
    apply advances_set_stack.
  - destruct (stack_pop_as_double st) as [[v s1]|] eqn:E; cbn in H; [|discriminate H].
    injection H as _ <- <-. split; [apply rest_of_refl|].
    eapply advances_trans; [exact (stack_pop_as_double_advances _ _ _ E)|].
    apply advances_set_stack.
  - destruct (stack_pop_as_double st) as [[v s1]|] eqn:E; cbn in H; [|discriminate H].
    injection H as _ <- <-. split; [apply rest_of_refl|].
    eapply advances_trans; [exact (stack_pop_as_double_advances _ _ _ E)|].
    apply advances_set_stack.
  - injection H as _ <- <-. split; [apply rest_of_refl|]. split.
    + exists []. cbn. symmetry. apply app_nil_r.
    + intros k Hk. cbn. destruct (decide (_newWord st = k)) as [->|Hne].
      * rewrite lookup_insert_eq. eexists. reflexivity.
      * rewrite lookup_insert_ne by exact Hne. exact Hk.
  - unfold user_eval in H.
    destruct (user_eval_loop ev wl st) as [s1| |] eqn:E; cbn in H; try discriminate H.
    injection H as _ <- <-. split; [apply rest_of_refl|].
    exact (user_eval_loop_advances ev wl st s1 Hev E).
Qed.

Section Forward.

Variable strtod : string -> double.

Lemma eval_body_forward (ev : eval_t) :
  forward_evaluator ev -> forward_evaluator (eval_body strtod ev).
Proof.
  intros Hev word rest st rv st' rest' Hrep H. unfold eval_body in H.
  destruct (0 <? size word);
    [|injection H as _ <- <-; split; [apply rest_of_refl|apply advances_refl]].
  destruct (_isCompiling st).
  - unfold compiletime_eval in H.
    assert (Hset : forall st1 out,
               _runtimeDictionary st1 = _runtimeDictionary st ->
               console st1 = (console st ++ out)%list ->
               Ret (0, st1, rest) = Ret (rv, st', rest') ->
               rest_of rest rest' /\ advances st st').
    { intros st1 out Hd Hc E. injection E as _ <- <-.
      split; [apply rest_of_refl|exact (advances_fields _ _ out Hd Hc)]. }
    destruct (String.eqb (_newWord st) "").
    { refine (Hset _ [] _ _ H); [reflexivity|symmetry; apply app_nil_r]. }
    destruct (_compiletimeDictionary st !! word) as [cw|].
    + exact (call_forward ev (w_eval cw) Hev _ _ _ _ _ _ Hrep H).
    + destruct (isdigit (first_byte word)).
      { refine (Hset _ [] _ _ H); [reflexivity|symmetry; apply app_nil_r]. }
      destruct (_runtimeDictionary st !! word).
      { refine (Hset _ [] _ _ H); [reflexivity|symmetry; apply app_nil_r]. }
      injection H as _ <- <-. split; [apply rest_of_refl|apply advances_printf].
  - unfold runtime_eval in H.
    destruct (isdigit (first_byte word)).
    + destruct (negb (find word dot =? npos)); injection H as _ <- <-;
        (split; [apply rest_of_refl|apply advances_set_stack]).
    + destruct (_runtimeDictionary st !! word) as [we|];
        [|injection H as _ <- <-; split; [apply rest_of_refl|apply advances_printf]].
      pose proof (advances_validate (word, we) st) as Hv.
      destruct (validate_stack_for_word (word, we) st) as [ok st1]. cbn [snd] in Hv.
      destruct ok.
      * destruct (call_forward ev (w_eval we) Hev _ _ _ _ _ _ Hrep H) as [Hr Ha].
        split; [exact Hr|]. eapply advances_trans; [exact Hv|exact Ha].
      * injection H as _ <- <-. split; [apply rest_of_refl|].
        eapply advances_trans; [exact Hv|].
        eapply advances_trans; [apply advances_printf|].
        eapply advances_trans; [apply advances_print_stack|apply advances_printf].
Qed.

Lemma eval_forward (fuel : nat) : forward_evaluator (eval strtod fuel).
Proof.
  induction fuel as [|fuel IH].
  - intros word rest st rv st' rest' _ H. discriminate H.
  - cbn [eval]. apply eval_body_forward. exact IH.
Qed.

(** X7. Evaluating a word consumes the rest of the line from the front
    only (what is left is an end of what was given), only appends to the
    console and never removes a word from the runtime dictionary. *)
Theorem eval_moves_forward (fuel : nat) (word rest : string) (st : State) rv st' rest' :
  representable rest ->
  eval strtod fuel word rest st = Ret (rv, st', rest') ->
  (exists consumed, rest = consumed +:+ rest')
  /\ (exists out, console st' = (console st ++ out)%list)
  /\ (forall k, is_Some (_runtimeDictionary st !! k) ->
                is_Some (_runtimeDictionary st' !! k)).
Proof.
  intros Hrep H. destruct (eval_forward fuel _ _ _ _ _ _ Hrep H) as [Hr [Hc Hk]].
  split; [exact Hr|]. split; [exact Hc|exact Hk].
Qed.

End Forward.

(** ** Lines and files *)

Section LinesAndFiles.

Variable strtod : string -> double.

Lemma parse_cons (fuel : nat) (w tail : string) (st : State) :
  ¬ occurs space w -> representable (w +:+ String space tail) ->
  parse strtod (S fuel) (w +:+ String space tail) st
  = ('(_, st', line') ← eval strtod fuel w tail st; parse strtod fuel line' st').
Proof.
  intros Hw Hrep. cbn [parse].
  assert (Hs : (0 <? size (w +:+ String space tail)) = true).
  { rewrite size_app, size_String. pose proof (size_nonneg w). pose proof (size_nonneg tail).
    destruct (Z.ltb_spec 0 (size w + (size tail + 1))); [reflexivity|lia]. }
  rewrite Hs, (nextWord_found w tail space Hrep Hw).
  destruct (eval strtod fuel w tail st) as [[[s st1] line2]| |]; reflexivity.
Qed.

Lemma parse_last (fuel : nat) (w : string) (st : State) :
  ¬ occurs space w -> w <> "" ->
  parse strtod (S (S fuel)) w st
  = ('(_, st', _) ← eval strtod (S fuel) w "" st; Ret (true, st', "")).
Proof.
  intros Hw Hne. cbn [parse]. rewrite (size_pos w Hne), (nextWord_absent w space Hw).
  destruct (eval strtod (S fuel) w "" st) as [[[s st1] line2]| |] eqn:E; cbn; try reflexivity.
  destruct (eval_forward strtod (S fuel) _ _ _ _ _ _ representable_nil E) as [Hr _].
  apply rest_of_nil in Hr. subst line2. reflexivity.
Qed.

(** X8. A line is evaluated word by word: a line that starts with a word
    followed by a space evaluates that word, handing it the text after
    the space, and goes on with whatever the word left of it; a line that
    is a single word evaluates it with nothing after it and ends. *)
Theorem parse_word_by_word (fuel : nat) (w tail : string) (st : State) :
  ¬ occurs space w ->
  (representable (w +:+ String space tail) ->
   parse strtod (S fuel) (w +:+ String space tail) st
   = ('(_, st', line') ← eval strtod fuel w tail st; parse strtod fuel line' st'))
  /\ (w <> "" ->
      parse strtod (S (S fuel)) w st
      = ('(_, st', _) ← eval strtod (S fuel) w "" st; Ret (true, st', ""))).
Proof.
  intros Hw. split.
  - intros Hrep. apply parse_cons; assumption.
  - intros Hne. apply parse_last; assumption.
Qed.

Lemma loadFile_loop_parse_lines (fuel : nat) (path : string) (lines : list string)
    (lineNo : Z) (st : State) :
  loadFile_loop strtod fuel path lines lineNo true st
  = (st' ← parse_lines strtod fuel lines st; Ret (true, st')).
Proof.
  revert lineNo st. induction lines as [|line lines IH]; intros lineNo st;
    cbn [loadFile_loop parse_lines]; [reflexivity|].
  destruct (parse strtod fuel line st) as [[[rv1 st1] l1]| |] eqn:E; cbn; try reflexivity.
  destruct (parse_returns_true strtod _ _ _ _ _ _ E) as [-> _].
  apply IH.
Qed.

(** X9. Loading a file parses every one of its lines in order, each from
    the interpreter the previous one left, whatever errors the lines
    report; the result is [true] exactly when the file has at least one
    line, and no "parse error at" message is ever printed. *)
Theorem loadFile_parses_every_line (fuel : nat) (path : string) (lines : list string)
    (st : State) :
  loadFile strtod fuel path lines st
  = (st' ← parse_lines strtod fuel lines st; Ret ((0 <? length lines)%nat, st')).
Proof.
  unfold loadFile. destruct lines as [|line lines]; [reflexivity|].
  change (0 <? length (line :: lines))%nat with true.
  apply loadFile_loop_parse_lines.
Qed.

(** X10. No word and no line ever changes the compile-time dictionary. *)
Theorem compiletime_dictionary_constant (fuel : nat) (st : State) :
  (forall word rest rv st' rest',
      eval strtod fuel word rest st = Ret (rv, st', rest') ->
      _compiletimeDictionary st' = _compiletimeDictionary st)
  /\ (forall line b st' line',
        parse strtod fuel line st = Ret (b, st', line') ->
        _compiletimeDictionary st' = _compiletimeDictionary st).
Proof.
  split.
  - intros word rest rv st' rest' H. exact (eval_keeps strtod fuel _ _ _ _ _ _ H).
  - intros line b st' line' H. exact (parse_keeps strtod fuel _ _ _ _ _ H).
Qed.

End LinesAndFiles.

(** ** Built-in words *)

Lemma rev_snoc_head (stk : list stacktype_t) (v : stacktype_t) :
  rev (stk ++ [v]) !! O = Some v.
Proof. rewrite rev_app_distr. reflexivity. Qed.

(** A word with one parameter against a stack with a top. *)
Lemma validate_top (name : string) (w : word_t) (pt : param_t) (st : State) stk v :
  w_params w = [[pt]] -> _stack st = (stk ++ [v])%list ->
  validate_stack_for_word (name, w) st = (tag_matches (p_type pt) v, st).
Proof.
  intros Hp Hs. rewrite (validate_single name w [pt] st Hp).
  cbn [length Nat.eqb]. rewrite Hs, length_app. cbn [length].
  destruct (Nat.ltb_spec (length stk + 1) 1) as [Hlt|_]; [lia|].
  cbn [top_types_loop Nat.sub]. rewrite rev_snoc_head. cbn [pred_loop].
  rewrite datatype_eq_index. destruct (tag_matches (p_type pt) v); reflexivity.
Qed.

(** A word with one parameter against an empty stack. *)
Lemma validate_empty (name : string) (w : word_t) (pt : param_t) (st : State) :
  w_params w = [[pt]] -> _stack st = [] ->
  (validate_stack_for_word (name, w) st).1 = false.
Proof.
  intros Hp Hs. rewrite (validate_single name w [pt] st Hp).
  cbn [length Nat.eqb]. rewrite Hs. reflexivity.
Qed.

(** A word without parameters. *)
Lemma validate_no_parameters (name : string) (w : word_t) (st : State) :
  w_params w = [[]] -> validate_stack_for_word (name, w) st = (true, st).
Proof. intros Hp. rewrite (validate_single name w [] st Hp). reflexivity. Qed.

Lemma set_stack_id (st : State) : set_stack (_stack st) st = st.
Proof. destruct st. reflexivity. Qed.

Lemma set_stack_set_stack (a b : list stacktype_t) (st : State) :
  set_stack a (set_stack b st) = set_stack a st.
Proof. reflexivity. Qed.

Lemma stack_push_pop_back (v : stacktype_t) (st : State) :
  stack_pop (stack_push v st) = Some (v, st).
Proof.
  destruct st as [rd cd ic nw nd stk out].
  unfold stack_pop, stack_push, set_stack. cbn.
  rewrite back_push, pop_back_push. reflexivity.
Qed.

Section BuiltIns.

Variable strtod : string -> double.

Lemma runtime_rejected (fuel : nat) (name rest : string) (st : State) (w : word_t) :
  _isCompiling st = false -> name <> "" -> isdigit (first_byte name) = false ->
  _runtimeDictionary st !! name = Some w ->
  (validate_stack_for_word (name, w) st).1 = false ->
  exists st', eval strtod (S fuel) name rest st = Ret (0, st', rest)
              /\ same_interpreter st st'.
Proof.
  intros Hc Hn Hd Hl Hv.
  rewrite (runtime_eval_known strtod fuel name rest st w Hc Hn Hd Hl).
  pose proof (validate_same (name, w) st) as Hs.
  destruct (validate_stack_for_word (name, w) st) as [ok st1]. cbn [fst snd] in *.
  subst ok. eexists. split; [reflexivity|].
  eapply same_interpreter_trans; [exact Hs|].
  eapply same_interpreter_trans; [apply printf_same|].
  eapply same_interpreter_trans; [apply print_stack_same|apply printf_same].
Qed.

(** X11. In runtime mode, with a value on top of the stack, [DUP] pushes
    a copy of it and [DROP] removes it, so that [DUP] followed by [DROP]
    gives back the interpreter as it was; on an empty stack both are
    rejected and change nothing but the console.  All return 0 and leave
    the rest of the line alone. *)
Theorem dup_and_drop (fuel : nat) (rest : string) (st : State) :
  _isCompiling st = false ->
  _runtimeDictionary st !! "DUP" = Some DUP ->
  _runtimeDictionary st !! "DROP" = Some DROP ->
  (forall stk v, _stack st = (stk ++ [v])%list ->
     eval strtod (S fuel) "DUP" rest st = Ret (0, stack_push v st, rest)
     /\ eval strtod (S fuel) "DROP" rest (stack_push v st) = Ret (0, st, rest)
     /\ eval strtod (S fuel) "DROP" rest st = Ret (0, set_stack stk st, rest))
  /\ (_stack st = [] ->
      (exists st', eval strtod (S fuel) "DUP" rest st = Ret (0, st', rest)
                   /\ same_interpreter st st')
      /\ (exists st', eval strtod (S fuel) "DROP" rest st = Ret (0, st', rest)
                      /\ same_interpreter st st')).
Proof.
  intros Hc Hdup Hdrop. split.
  - intros stk v Hs. split; [|split].
    + rewrite (runtime_eval_known strtod fuel "DUP" rest st DUP Hc); try (reflexivity || discriminate || assumption).
      rewrite (validate_top "DUP" DUP (P "s1" st_any) st stk v eq_refl Hs).
      cbn [tag_matches p_type P DUP w_eval call]. rewrite Hs, back_push. reflexivity.
    + rewrite (runtime_eval_known strtod fuel "DROP" rest (stack_push v st) DROP);
        try (reflexivity || discriminate || assumption).
      rewrite (validate_top "DROP" DROP (P "s1" st_any) (stack_push v st) (_stack st) v
                 eq_refl eq_refl).
      cbn [tag_matches p_type P DROP w_eval call]. rewrite stack_push_pop_back. reflexivity.
    + rewrite (runtime_eval_known strtod fuel "DROP" rest st DROP Hc); try (reflexivity || discriminate || assumption).
      rewrite (validate_top "DROP" DROP (P "s1" st_any) st stk v eq_refl Hs).
      cbn [tag_matches p_type P DROP w_eval call]. unfold stack_pop.
      rewrite Hs, back_push, pop_back_push. reflexivity.
  - intros Hs. split.
    + apply (runtime_rejected fuel "DUP" rest st DUP); try (reflexivity || discriminate || assumption).
      exact (validate_empty "DUP" DUP (P "s1" st_any) st eq_refl Hs).
    + apply (runtime_rejected fuel "DROP" rest st DROP); try (reflexivity || discriminate || assumption).
      exact (validate_empty "DROP" DROP (P "s1" st_any) st eq_refl Hs).
Qed.

End BuiltIns.

Section Vectors.

Variable strtod : string -> double.

(** X12. In runtime mode each of [->{X}], [->{Y}] and [->{Z}] replaces a
    number on top of the stack by a vector holding that number (an
    integer converted to [double]) in the component the word names and
    NaN in the two others, the depth staying the same; a string or a
    vector on top is rejected and nothing but the console changes. *)
Theorem vec3_setter_replaces_top
    (fuel : nat) (name rest : string) (b : body_t) (mk : double -> Vec3)
    (w : word_t) (pt : param_t) (st : State) (stk : list stacktype_t) (v : stacktype_t) :
  In (name, b, mk) vec3_setters ->
  _isCompiling st = false ->
  _runtimeDictionary st !! name = Some w ->
  w_eval w = b -> w_params w = [[pt]] -> p_type pt = st_number ->
  _stack st = (stk ++ [v])%list ->
  match v with
  | v_integer n =>
      eval strtod (S fuel) name rest st
      = Ret (0, set_stack (stk ++ [v_vec3 (mk (double_of_long n))]) st, rest)
  | v_double d =>
      eval strtod (S fuel) name rest st
      = Ret (0, set_stack (stk ++ [v_vec3 (mk d)]) st, rest)
  | v_string _ | v_vec3 _ =>
      exists st', eval strtod (S fuel) name rest st = Ret (0, st', rest)
                  /\ same_interpreter st st'
  end.
Proof.
  intros Hin Hc Hl Hb Hp Ht Hs.
  assert (Hname : name <> "" /\ isdigit (first_byte name) = false).
  { destruct Hin as [E|[E|[E|[]]]]; injection E as <- _ _; split; (discriminate || reflexivity). }
  destruct Hname as [Hn Hd].
  pose proof (validate_top name w pt st stk v Hp Hs) as Hv. rewrite Ht in Hv.
  assert (Hpop : stack_pop st = Some (v, set_stack stk st)).
  { unfold stack_pop. rewrite Hs, back_push, pop_back_push. reflexivity. }
  destruct v as [d|n|s|vv].
  - rewrite (runtime_eval_known strtod fuel name rest st w Hc Hn Hd Hl), Hv.
    cbn [tag_matches]. rewrite Hb.
    destruct Hin as [E|[E|[E|[]]]]; injection E as _ <- <-;
      cbn [call]; unfold stack_pop_as_double; rewrite Hpop; reflexivity.
  - rewrite (runtime_eval_known strtod fuel name rest st w Hc Hn Hd Hl), Hv.
    cbn [tag_matches]. rewrite Hb.
    destruct Hin as [E|[E|[E|[]]]]; injection E as _ <- <-;
      cbn [call]; unfold stack_pop_as_double; rewrite Hpop; reflexivity.
  - apply (runtime_rejected strtod fuel name rest st w Hc Hn Hd Hl).
    rewrite Hv. reflexivity.
  - apply (runtime_rejected strtod fuel name rest st w Hc Hn Hd Hl).
    rewrite Hv. reflexivity.
Qed.



End Vectors.

(** ** Definitions *)

Lemma representable_tail (w tail : string) (c : ascii) :
  representable (w +:+ String c tail) -> representable tail.
Proof.
  unfold representable. rewrite size_app, size_String.
  pose proof (size_nonneg w). lia.
Qed.

Lemma set_newDefinition_id (st : State) : set_newDefinition (_newDefinition st) st = st.
Proof. destruct st. reflexivity. Qed.

Section Definitions.

Variable strtod : string -> double.

Lemma compile_capture (fuel : nat) (t rest : string) (st : State) :
  _isCompiling st = true -> _newWord st <> "" -> compilable st t ->
  eval strtod (S fuel) t rest st
  = Ret (0, set_newDefinition (_newDefinition st ++ [t]) st, rest).
Proof.
  intros Hc Hn (Ht & _ & Hcd & Hk). cbn [eval]. unfold eval_body, compiletime_eval.
  rewrite size_pos by exact Ht. rewrite Hc.
  destruct (String.eqb_spec (_newWord st) "") as [E|_]; [contradiction|].
  rewrite Hcd. destruct (isdigit (first_byte t)); [reflexivity|].
  destruct Hk as [Hk|[w Hk]]; [discriminate Hk|]. rewrite Hk. reflexivity.
Qed.

Lemma compile_end (fuel : nat) (rest : string) (st : State) (cw : word_t) :
  _isCompiling st = true -> _newWord st <> "" ->
  _compiletimeDictionary st !! ";" = Some cw -> w_eval cw = b_semicolon ->
  eval strtod (S fuel) ";" rest st = Ret (0, end_definition st, rest).
Proof.
  intros Hc Hn Hl Hb. cbn [eval]. unfold eval_body, compiletime_eval.
  rewrite size_pos by discriminate. rewrite Hc.
  destruct (String.eqb_spec (_newWord st) "") as [E|_]; [contradiction|].
  rewrite Hl, Hb. reflexivity.
Qed.

Lemma compile_tokens (k : nat) (tokens : list string) (st : State) (cw : word_t) :
  _isCompiling st = true -> _newWord st <> "" ->
  _compiletimeDictionary st !! ";" = Some cw -> w_eval cw = b_semicolon ->
  Forall (compilable st) tokens ->
  representable (line_of tokens ";") ->
  parse strtod (S (S (length tokens + k))) (line_of tokens ";") st
  = Ret (true, end_definition (set_newDefinition (_newDefinition st ++ tokens) st), "").
Proof.
  revert st. induction tokens as [|t ts IH]; intros st Hc Hn Hl Hb Hall Hrep.
  - cbn [line_of length Nat.add]. rewrite parse_last; [|intros [E|[]]; discriminate E|discriminate].
    rewrite (compile_end k "" st cw Hc Hn Hl Hb). cbn.
    rewrite app_nil_r, set_newDefinition_id. reflexivity.
  - inversion Hall as [|? ? Ht Hts]; subst.
    cbn [line_of length Nat.add].
    rewrite parse_cons; [|exact (proj1 (proj2 Ht))|exact Hrep].
    rewrite (compile_capture _ t _ st Hc Hn Ht). cbn [mbind result_bind].
    rewrite (IH (set_newDefinition (_newDefinition st ++ [t]) st)); try assumption.
    + cbn [_newDefinition set_newDefinition]. rewrite <- app_assoc. reflexivity.
    + exact (representable_tail _ _ _ Hrep).
Qed.

Lemma colon_starts (fuel : nat) (rest : string) (st : State) :
  _isCompiling st = false -> _runtimeDictionary st !! ":" = Some COLON ->
  eval strtod (S fuel) ":" rest st = Ret (0, set_isCompiling true st, rest).
Proof.
  intros Hc Hl.
  rewrite (runtime_eval_known strtod fuel ":" rest st COLON Hc);
    [|discriminate|reflexivity|exact Hl].
  rewrite (validate_no_parameters ":" COLON st eq_refl). reflexivity.
Qed.

Lemma name_adopted (fuel : nat) (name rest : string) (st : State) :
  _isCompiling st = true -> _newWord st = "" -> name <> "" ->
  eval strtod (S fuel) name rest st = Ret (0, set_newWord name st, rest).
Proof.
  intros Hc Hn Hw. cbn [eval]. unfold eval_body, compiletime_eval.
  rewrite size_pos by exact Hw. rewrite Hc, Hn. reflexivity.
Qed.

Lemma user_word_call (fuel : nat) (name rest : string) (st : State) d tokens :
  _isCompiling st = false -> name <> "" -> isdigit (first_byte name) = false ->
  _runtimeDictionary st !! name = Some (mkWord d [] (b_user tokens)) ->
  eval strtod (S fuel) name rest st
  = (st' ← user_eval_loop (eval strtod fuel) tokens st; Ret (0, st', rest)).
Proof.
  intros Hc Hn Hd Hl.
  rewrite (runtime_eval_known strtod fuel name rest st _ Hc Hn Hd Hl).
  cbn [validate_stack_for_word]. unfold validate_stack_for_word. cbn.
  unfold user_eval. destruct (user_eval_loop (eval strtod fuel) tokens st); reflexivity.
Qed.

(** X15. In an interpreter reached from a new one that is in runtime mode
    and where [:] is still the built-in word, the line
    [: name t1 ... tn ;], whose tokens are numeric literals or known
    words other than [;] and [(], executes nothing: it returns [true]
    and changes only the runtime dictionary, where [name] now stands for
    the token list (replacing any earlier entry).  Evaluating [name]
    afterwards (for a name that does not start with a digit) evaluates
    the tokens in order, each with nothing after it, and returns 0
    leaving the caller's rest of line alone. *)
Theorem colon_definition (k : nat) (name : string) (tokens : list string) (st : State) :
  reachable strtod st -> _isCompiling st = false ->
  _runtimeDictionary st !! ":" = Some COLON ->
  name <> "" -> ¬ occurs space name ->
  Forall (compilable st) tokens ->
  representable (line_of (":" :: name :: tokens) ";") ->
  let st' := set_runtimeDictionary
               (<[name := mkWord ("user " +:+ name) [] (b_user tokens)]>
                  (_runtimeDictionary st)) st in
  parse strtod (S (S (S (S (length tokens + k))))) (line_of (":" :: name :: tokens) ";") st
  = Ret (true, st', "")
  /\ (isdigit (first_byte name) = false ->
      forall fuel rest,
        eval strtod (S fuel) name rest st'
        = (st'' ← user_eval_loop (eval strtod fuel) tokens st'; Ret (0, st'', rest))).
Proof.
  intros Hreach Hc Hcolon Hn Hsp Hall Hrep st'.
  pose proof (reachable_well_formed strtod st Hreach) as (_ & _ & Hcs & _).
  destruct (Hcs Hc) as [Hnw Hnd].
  pose proof (reachable_semicolon strtod st Hreach) as Hsemi.
  split.
  - cbn [line_of] in *.
    rewrite parse_cons; [|intros [E|[]]; discriminate E|exact Hrep].
    rewrite (colon_starts _ _ st Hc Hcolon). cbn [mbind result_bind].
    apply representable_tail in Hrep.
    rewrite parse_cons; [|exact Hsp|exact Hrep].
    rewrite (name_adopted _ name _ (set_isCompiling true st) eq_refl Hnw Hn).
    cbn [mbind result_bind].
    apply representable_tail in Hrep.
    rewrite (compile_tokens k tokens (set_newWord name (set_isCompiling true st))
               (mkWord "End Definition" [[]] b_semicolon));
      [|reflexivity|exact Hn|exact Hsemi|reflexivity|exact Hall|exact Hrep].
    f_equal. f_equal. f_equal.
    destruct st as [rd cd ic nw nd stk out]. cbn in *. subst. reflexivity.
  - intros Hd fuel rest.
    apply (user_word_call fuel name rest st' ("user " +:+ name) tokens); try assumption.
    unfold st'. cbn. apply lookup_insert_eq.
Qed.

Lemma self_reference_diverges (fuel : nat) (name : string) (ws : list string) (d : string) :
  name <> "" -> isdigit (first_byte name) = false ->
  forall rest st,
    _isCompiling st = false ->
    _runtimeDictionary st !! name = Some (mkWord d [] (b_user (name :: ws))) ->
    eval strtod fuel name rest st = OutOfFuel.
Proof.
  intros Hn Hd. induction fuel as [|fuel IH]; intros rest st Hc Hl; [reflexivity|].
  rewrite (user_word_call fuel name rest st d (name :: ws) Hc Hn Hd Hl).
  cbn [user_eval_loop]. rewrite (IH "" st Hc Hl). reflexivity.
Qed.

(** X16. Words are bound when they run, not when they are defined: a user
    word whose first token is its own name (which a redefinition in terms
    of the earlier word of that name produces) never returns, however
    deep the evaluation is allowed to nest. *)
Theorem self_reference_never_returns
    (fuel : nat) (name rest : string) (ws : list string) (d : string) (st : State) :
  name <> "" -> isdigit (first_byte name) = false ->
  _isCompiling st = false ->
  _runtimeDictionary st !! name = Some (mkWord d [] (b_user (name :: ws))) ->
  eval strtod fuel name rest st = OutOfFuel.
Proof.
  intros Hn Hd Hc Hl. exact (self_reference_diverges fuel name ws d Hn Hd rest st Hc Hl).
Qed.

End Definitions.

(** ** Integer literals and words without a body *)




Section LiteralsAndStubs.

Variable strtod : string -> double.


(** X18. The words whose body is empty (the arithmetic and trigonometric
    words, [OVER], [ROLL+], [STO], the machine words and the like) never
    change the stack, the dictionaries or the compilation state: whether
    the validator accepts them or not, their evaluation in runtime mode
    returns 0, leaves the rest of the line alone and at most prints. *)
Theorem empty_body_changes_nothing
    (fuel : nat) (name rest : string) (st : State) (w : word_t) :
  _isCompiling st = false -> name <> "" -> isdigit (first_byte name) = false ->
  _runtimeDictionary st !! name = Some w -> w_eval w = b_nop ->
  exists st', eval strtod (S fuel) name rest st = Ret (0, st', rest)
              /\ same_interpreter st st'.
Proof.
  intros Hc Hn Hd Hl Hb.
  rewrite (runtime_eval_known strtod fuel name rest st w Hc Hn Hd Hl).
  pose proof (validate_same (name, w) st) as Hs.
  destruct (validate_stack_for_word (name, w) st) as [ok st1]. cbn [snd] in Hs.
  destruct ok.
  - rewrite Hb. cbn [call]. exists st1. split; [reflexivity|exact Hs].
  - eexists. split; [reflexivity|].
    eapply same_interpreter_trans; [exact Hs|].
    eapply same_interpreter_trans; [apply printf_same|].
    eapply same_interpreter_trans; [apply print_stack_same|apply printf_same].
Qed.

End LiteralsAndStubs.

(** * Closed instances of the further properties *)

(** Proves that a character does not occur in a literal string. *)
Ltac absent_character :=
  let H := fresh "H" in
  intros H; repeat (destruct H as [H|H]; [discriminate H|]); destruct H.

(** The interpreter after the line [: FOO]. *)
Lemma reachable_compiling :
  reachable strtod_decimal (set_newWord "FOO" (set_isCompiling true Privates)).
Proof.
  apply (reachable_parse strtod_decimal 3 ": FOO" Privates true _ "");
    [apply reachable_new|].
  vm_compute. reflexivity.
Defined.

Lemma nextWord_reassembles_witness :
  representable "ab cd e"
  /\ ¬ occurs space "ab"
  /\ "ab cd e" = "ab" +:+ String space "cd e".
Proof.
  assert (Hrep : representable "ab cd e") by reflexivity.
  destruct (nextWord_reassembles "ab cd e" space 2 "ab" "cd e" Hrep eq_refl)
    as (Hw & _ & Hf).
  split; [exact Hrep|]. split; [exact Hw|].
  destruct Hf as [Hb _]; [discriminate|exact Hb].
Defined.

(** [+] on an empty stack. *)
Lemma rejected_word_changes_nothing_witness :
  exists st', eval strtod_decimal 1 "+" "" Privates = Ret (0, st', "")
              /\ same_interpreter Privates st'.
Proof.
  apply (rejected_word_changes_nothing strtod_decimal 0 "+" "" Privates
           (mkWord "Addition (x y -- x+y)"
              [[P "x" st_number; P "y" st_number]; [P "vx" st_vec3; P "vx" st_vec3]] b_nop));
    [reflexivity|discriminate|reflexivity|vm_compute; reflexivity|vm_compute; reflexivity].
Defined.

(** The interpreter after the line [: SQ2 DUP * ;]. *)
Lemma reachable_defined :
  reachable strtod_decimal
    (set_runtimeDictionary
       (<["SQ2" := mkWord "user SQ2" [] (b_user ["DUP"; "*"])]>
          (_runtimeDictionary Privates)) Privates).
Proof.
  apply (reachable_parse strtod_decimal 6 ": SQ2 DUP * ;" Privates true _ "");
    [apply reachable_new|].
  vm_compute. reflexivity.
Defined.

(** The interpreter after the line [:]. *)
Lemma reachable_colon : reachable strtod_decimal (set_isCompiling true Privates).
Proof.
  apply (reachable_parse strtod_decimal 2 ":" Privates true _ "");
    [apply reachable_new|].
  vm_compute. reflexivity.
Defined.

(** After a whole definition the interpreter is out of compile mode and
    has neither a pending name nor a captured token; right after [:] it
    has no pending name and no captured token. *)
Lemma compile_state_lifecycle_witness :
  let st1 := set_runtimeDictionary
               (<["SQ2" := mkWord "user SQ2" [] (b_user ["DUP"; "*"])]>
                  (_runtimeDictionary Privates)) Privates in
  let st2 := set_isCompiling true Privates in
  (_isCompiling st1 = false /\ _newWord st1 = "" /\ _newDefinition st1 = [])
  /\ (_isCompiling st2 = true /\ _newWord st2 = "" /\ _newDefinition st2 = []).
Proof.
  intros st1 st2. split.
  - split; [reflexivity|].
    exact (proj1 (compile_state_lifecycle strtod_decimal st1 reachable_defined) eq_refl).
  - split; [reflexivity|]. split; [reflexivity|].
    exact (proj2 (compile_state_lifecycle strtod_decimal st2 reachable_colon) eq_refl).
Defined.

Lemma no_read_of_empty_stack_witness :
  eval strtod_decimal 2 "DROP" "" Privates <> Undefined.
Proof.
  exact (proj1 (no_read_of_empty_stack strtod_decimal Privates 2 (reachable_new _)) "DROP" "").
Defined.

Lemma compile_mode_keeps_stack_witness :
  let st := set_newWord "FOO" (set_isCompiling true Privates) in
  exists rv st' rest',
    eval strtod_decimal 1 "DUP" "" st = Ret (rv, st', rest') /\ _stack st' = _stack st.
Proof.
  exact (compile_mode_keeps_stack strtod_decimal 0 "DUP" "" _ reachable_compiling eq_refl).
Defined.

(** A comment in front of more text. *)
Lemma eval_moves_forward_witness :
  eval strtod_decimal 1 "(" "x) y" Privates = Ret (1, Privates, " y")
  /\ exists consumed, "x) y" = consumed +:+ " y".
Proof.
  assert (He : eval strtod_decimal 1 "(" "x) y" Privates = Ret (1, Privates, " y"))
    by (vm_compute; reflexivity).
  split; [exact He|].
  exact (proj1 (eval_moves_forward strtod_decimal 1 "(" "x) y" Privates 1 Privates " y"
                  eq_refl He)).
Defined.

Lemma parse_word_by_word_witness :
  parse strtod_decimal 3 "1 2" Privates
  = ('(_, st', line') ← eval strtod_decimal 2 "1" "2" Privates;
     parse strtod_decimal 2 line' st').
Proof.
  apply (proj1 (parse_word_by_word strtod_decimal 2 "1" "2" Privates
                  ltac:(intros [H|[]]; discriminate H))).
  reflexivity.
Defined.

Lemma dup_and_drop_witness :
  let st := stack_push (v_integer 7) Privates in
  eval strtod_decimal 1 "DUP" "" st = Ret (0, stack_push (v_integer 7) st, "")
  /\ eval strtod_decimal 1 "DROP" "" (stack_push (v_integer 7) st) = Ret (0, st, "")
  /\ eval strtod_decimal 1 "DROP" "" st = Ret (0, set_stack [] st, "").
Proof.
  intros st.
  apply (proj1 (dup_and_drop strtod_decimal 0 "" st eq_refl
                  ltac:(vm_compute; reflexivity) ltac:(vm_compute; reflexivity))
           [] (v_integer 7)).
  reflexivity.
Defined.

Lemma vec3_setter_replaces_top_witness :
  let st := stack_push (v_integer 1) Privates in
  eval strtod_decimal 1 "->{X}" "" st
  = Ret (0, set_stack [v_vec3 (mkVec3 (double_of_long 1) nan nan)] st, "").
Proof.
  intros st.
  apply (vec3_setter_replaces_top strtod_decimal 0 "->{X}" "" b_vec3_x
           (fun d => mkVec3 d nan nan)
           (mkWord "Convert value on top of stack to X component of vec3 ( x -- {x,,} )"
              [[P "X" st_number]] b_vec3_x)
           (P "X" st_number) st [] (v_integer 1));
    [left; reflexivity|reflexivity|vm_compute; reflexivity
    |reflexivity|reflexivity|reflexivity|reflexivity].
Defined.



(** The line [: SQ2 DUP * ;] given to a new interpreter. *)
Lemma colon_definition_witness :
  parse strtod_decimal 6 ": SQ2 DUP * ;" Privates
  = Ret (true,
         set_runtimeDictionary
           (<["SQ2" := mkWord "user SQ2" [] (b_user ["DUP"; "*"])]>
              (_runtimeDictionary Privates)) Privates, "").
Proof.
  apply (proj1 (colon_definition strtod_decimal 0 "SQ2" ["DUP"; "*"] Privates
                  (reachable_new _) eq_refl ltac:(vm_compute; reflexivity)
                  ltac:(discriminate)
                  ltac:(intros [H|[H|[H|[]]]]; discriminate H)
                  ltac:(repeat (apply List.Forall_cons;
                                [split; [discriminate
                                        |split; [absent_character
                                                |split; [vm_compute; reflexivity
                                                        |right; vm_compute; eexists; reflexivity]]]|]);
                        apply List.Forall_nil)
                  eq_refl)).
Defined.

(** [FOO] redefined as [FOO]. *)
Lemma self_reference_never_returns_witness :
  let st := set_runtimeDictionary
              (<["FOO" := mkWord "user FOO" [] (b_user ["FOO"])]>
                 (_runtimeDictionary Privates)) Privates in
  parse_lines strtod_decimal 6 [": FOO DUP ;"; ": FOO FOO ;"] Privates = Ret st
  /\ eval strtod_decimal 1000 "FOO" "" st = OutOfFuel.
Proof.
  intros st. split; [vm_compute; reflexivity|].
  apply (self_reference_never_returns strtod_decimal 1000 "FOO" "" [] "user FOO" st);
    [discriminate|reflexivity|reflexivity|apply lookup_insert_eq].
Defined.


(** [+] with two numbers on the stack. *)
Lemma empty_body_changes_nothing_witness :
  let st := stack_push (v_integer 2) (stack_push (v_integer 1) Privates) in
  exists st', eval strtod_decimal 1 "+" "" st = Ret (0, st', "")
              /\ same_interpreter st st'.
Proof.
  intros st.
  apply (empty_body_changes_nothing strtod_decimal 0 "+" "" st
           (mkWord "Addition (x y -- x+y)"
              [[P "x" st_number; P "y" st_number]; [P "vx" st_vec3; P "vx" st_vec3]] b_nop));
    [reflexivity|discriminate|reflexivity|vm_compute; reflexivity|reflexivity].
Defined.
